(** * gopro-control: the command translation layer of gpc.py and GoPro.py

    A shallow embedding of the two scripts of the repository:
    - [gpc.py]: catalog, [Message.from_text], [Message.send_to],
      [Message._build_url], [keepalive], [send_wake_on_lan] and the body of
      the command loop of [main];
    - [GoPro.py]: the older variant, in [Module GoProPy].

    Python values are modelled as follows.  A [str] is a [string] (a sequence
    of characters with codes below 256), [bytes] is a [list Z] of values in
    [0, 256), a dict whose iteration order matters is an association list in
    insertion order, and an exception is a constructor of [exn].  Calls that
    reach the outside (sockets, HTTP, the two output streams, the clock, a
    child process) append an [event] to a trace; what the network answers is
    read from a [World]. *)

From Stdlib Require Import String Ascii List ZArith Lia Bool Arith.
From Stdlib Require Import DecimalString.
Import ListNotations.

#[local] Set Warnings "-register-all".

Local Open Scope string_scope.
Local Open Scope list_scope.

(** ** Exceptions and results *)

Inductive exn : Type :=
| ValueError (msg : string)
| IndexError (msg : string)
| NameError (msg : string)
| KeyError (key : string)
| TypeError (msg : string)
| AttributeError (msg : string)
| OSError (msg : string)
| OverflowError (msg : string)
| ConnectionError (msg : string)
| JSONDecodeError (msg : string)
| NotModelled (what : string).

(** [isinstance(e, ValueError)]: what [except ValueError] catches.  The
    decoder error of [requests] derives from [ValueError]. *)
Definition isinstance_ValueError (e : exn) : bool :=
  match e with
  | ValueError _ | JSONDecodeError _ => true
  | _ => false
  end.

(** [str(e)] for the exceptions of this program. *)
Definition str_exn (e : exn) : string :=
  match e with
  | ValueError m | IndexError m | NameError m | TypeError m
  | AttributeError m | OSError m | OverflowError m | ConnectionError m
  | JSONDecodeError m | NotModelled m => m
  | KeyError k => "'" ++ k ++ "'"
  end.

Inductive Result (A : Type) : Type :=
| Ok (a : A)
| Raise (e : exn).
Arguments Ok {A} a.
Arguments Raise {A} e.

Definition rbind {A B} (r : Result A) (k : A -> Result B) : Result B :=
  match r with
  | Ok a => k a
  | Raise e => Raise e
  end.

Declare Scope result_scope.
Delimit Scope result_scope with result.
Notation "x <- r ;; k" := (rbind r (fun x => k))
  (at level 61, r at next level, right associativity) : result_scope.
Notation "r ;;; k" := (rbind r (fun _ => k))
  (at level 61, right associativity) : result_scope.

(** ** Strings and sequences *)

(** The character [chr(34)]. *)
Definition dquote : string := String "034"%char EmptyString.

(** [str(n)] of a non-negative [int]. *)
Definition str_nat (n : nat) : string := NilZero.string_of_uint (Nat.to_uint n).

(** [s * n] on a [str]. *)
Fixpoint str_mul (s : string) (n : nat) : string :=
  match n with
  | O => ""
  | S n' => s ++ str_mul s n'
  end.

(** [l[i]] on a list. *)
Fixpoint getitem {A} (l : list A) (i : nat) : Result A :=
  match l, i with
  | [], _ => Raise (IndexError "list index out of range")
  | x :: _, O => Ok x
  | _ :: l', S i' => getitem l' i'
  end.

(** [l[i] = v] on a list: the list after the assignment. *)
Fixpoint setitem {A} (l : list A) (i : nat) (v : A) : Result (list A) :=
  match l, i with
  | [], _ => Raise (IndexError "list assignment index out of range")
  | _ :: l', O => Ok (v :: l')
  | x :: l', S i' =>
      match setitem l' i' v with
      | Ok l'' => Ok (x :: l'')
      | Raise e => Raise e
      end
  end.

(** [l[lo:hi]] for non-negative bounds: a fresh list. *)
Definition slice {A} (l : list A) (lo hi : nat) : list A :=
  firstn (hi - lo) (skipn lo l).

(** [l[lo:]]. *)
Definition slice_from {A} (l : list A) (lo : nat) : list A := skipn lo l.

(** [enumerate(l)], from index [i]. *)
Fixpoint enumerate_from {A} (i : nat) (l : list A) : list (nat * A) :=
  match l with
  | [] => []
  | x :: l' => (i, x) :: enumerate_from (S i) l'
  end.
Definition enumerate {A} (l : list A) : list (nat * A) := enumerate_from 0 l.

(** A dict with [str] keys, in insertion order. *)
Definition dict (V : Type) : Type := list (string * V).

Fixpoint dict_get {V} (d : dict V) (k : string) : option V :=
  match d with
  | [] => None
  | (k', v) :: d' => if String.eqb k' k then Some v else dict_get d' k
  end.

(** [k in d]. *)
Definition dict_mem {V} (d : dict V) (k : string) : bool :=
  match dict_get d k with Some _ => true | None => false end.

(** [d[k]]. *)
Definition dict_getitem {V} (d : dict V) (k : string) : Result V :=
  match dict_get d k with
  | Some v => Ok v
  | None => Raise (KeyError k)
  end.

(** ** The session: [class GoPro] of gpc.py *)

Record GoPro : Type := {
  ap_ssid : string;
  ap_password : string;
  ip_address : string;
  mac_address : string;
  keepalive_period : Z
}.

(** The class attribute [GoPro.udp_port]. *)
Definition udp_port : Z := 8554.

(** ** The catalog: [CommandEnum] and [Command.definitions] of gpc.py *)

Inductive CommandEnum : Type :=
| DEFAULT_BOOT_MODE
| DISPLAY_ON
| DISPLAY_OFF
| GET_INFO
| GET_STATUS
| GET_BATTERY_LEVEL
| POWER_OFF
| RECORD_START
| RECORD_STOP
| STREAM
| STREAM_BITRATE
| STREAM_RESOLUTION
| VIDEO_RESOLUTION
| WAKE
| ZOOM.

Definition value (c : CommandEnum) : string :=
  match c with
  | DEFAULT_BOOT_MODE => "default_boot_mode"
  | DISPLAY_ON => "display_on"
  | DISPLAY_OFF => "display_off"
  | GET_INFO => "get_info"
  | GET_STATUS => "get_status"
  | GET_BATTERY_LEVEL => "get_battery_level"
  | POWER_OFF => "power_off"
  | RECORD_START => "record_start"
  | RECORD_STOP => "record_stop"
  | STREAM => "stream"
  | STREAM_BITRATE => "stream_bitrate"
  | STREAM_RESOLUTION => "stream_resolution"
  | VIDEO_RESOLUTION => "video_resolution"
  | WAKE => "wake"
  | ZOOM => "zoom"
  end.

(** [a == b] on members of the enumeration. *)
Definition CommandEnum_eq_dec (a b : CommandEnum) : {a = b} + {a <> b}.
Proof. decide equality. Defined.

Definition CommandEnum_eqb (a b : CommandEnum) : bool :=
  if CommandEnum_eq_dec a b then true else false.

(** One entry of [Command.definitions]: the keys [arity] and [template], and
    the key [mapping] when the entry has one. *)
Record definition : Type := {
  arity : nat;
  template : string;
  mapping : option (dict string)
}.

Definition definitions : list (CommandEnum * definition) :=
  [ (DEFAULT_BOOT_MODE,
      {| arity := 1; template := "/setting/53/{}";
         mapping := Some [("video", "0"); ("photo", "1"); ("multishot", "2")] |});
    (DISPLAY_ON, {| arity := 0; template := "/setting/58/1"; mapping := None |});
    (DISPLAY_OFF, {| arity := 0; template := "/setting/58/0"; mapping := None |});
    (GET_INFO, {| arity := 0; template := ""; mapping := None |});
    (GET_STATUS, {| arity := 0; template := "/status"; mapping := None |});
    (GET_BATTERY_LEVEL, {| arity := 0; template := "/status"; mapping := None |});
    (POWER_OFF, {| arity := 0; template := "/command/system/sleep"; mapping := None |});
    (RECORD_START, {| arity := 0; template := "/command/shutter?p=1"; mapping := None |});
    (RECORD_STOP, {| arity := 0; template := "/command/shutter?p=0"; mapping := None |});
    (STREAM,
      {| arity := 0; template := "/execute?p1=gpStream&a1=proto_v2&c1=restart";
         mapping := None |});
    (STREAM_BITRATE, {| arity := 1; template := "/setting/62/{}"; mapping := None |});
    (STREAM_RESOLUTION,
      {| arity := 1; template := "/setting/64/{}";
         mapping := Some [("720p", "7"); ("480p", "4"); ("240p", "1")] |});
    (VIDEO_RESOLUTION,
      {| arity := 1; template := "/setting/2/{}";
         mapping := Some [("4k", "1"); ("1440p", "7"); ("1080p", "9"); ("720p", "12")] |});
    (WAKE, {| arity := 0; template := ""; mapping := None |});
    (ZOOM,
      {| arity := 1; template := "/command/digital_zoom?range_pcnt={}";
         mapping := None |}) ].

(** [Command.definitions[c]]. *)
Fixpoint definitions_lookup (items : list (CommandEnum * definition))
    (c : CommandEnum) : Result definition :=
  match items with
  | [] => Raise (KeyError (value c))
  | (c', d) :: rest =>
      if CommandEnum_eqb c' c then Ok d else definitions_lookup rest c
  end.

Definition definitions_getitem (c : CommandEnum) : Result definition :=
  definitions_lookup definitions c.

(** ** [class Message] of gpc.py: construction from text *)

Record Message : Type := {
  command : CommandEnum;
  args : list string
}.

(** The names bound where the body of [from_text] runs: its parameter and
    local variables first, the names of the module after them.  The builtins
    ([len], [enumerate], [ValueError], ...) come last in Python's lookup;
    none of them is called [self]. *)
Definition from_text_locals : list string :=
  ["cls"; "message_text"; "command"; "com"; "definition"; "arity"; "args";
   "mapping"; "i"; "arg"].

Definition module_globals : list string :=
  ["annotations"; "Sequence"; "configparser"; "distutils"; "enum"; "json";
   "re"; "requests"; "sys"; "socket"; "subprocess"; "signal"; "threading";
   "time"; "CONFIG_FILE"; "DEBUG"; "GoPro"; "CommandEnum"; "Command";
   "Message"; "main"; "keepalive"; "send_wake_on_lan"; "enable_debug";
   "debug_on"; "debug_print"; "signal_quit"].

(** Loading a name that no scope binds raises [NameError]. *)
Definition load_name (scope : list string) (x : string) : Result unit :=
  if existsb (String.eqb x) scope then Ok tt
  else Raise (NameError ("name '" ++ x ++ "' is not defined")).

Definition from_text_scope : list string := from_text_locals ++ module_globals.

Local Open Scope result_scope.

(** Lines 74-77: the loop over [Command.definitions.items()].  Each round
    evaluates [message_text[0]]; the last matching entry wins. *)
Fixpoint find_command (items : list (CommandEnum * definition))
    (message_text : list string) (command : option CommandEnum)
    : Result (option CommandEnum) :=
  match items with
  | [] => Ok command
  | (com, _) :: rest =>
      first <- getitem message_text 0 ;;
      find_command rest message_text
        (if String.eqb (value com) first then Some com else command)
  end.

(** Lines 88-91: the loop over [enumerate(args)].  [args] is the slice made
    on line 85, written at index [i] after its element [i] was read, so the
    pairs the loop sees are those of the list before the loop.  The message
    of line 90 starts with the field [self.command.value]: [self] is loaded
    first. *)
Fixpoint map_args (command : CommandEnum) (mapping : dict string)
    (items : list (nat * string)) (args : list string) : Result (list string) :=
  match items with
  | [] => Ok args
  | (i, arg) :: rest =>
      if negb (dict_mem mapping arg) then
        load_name from_text_scope "self" ;;;
        Raise (ValueError (value command ++ ": unknown argument " ++ dquote
                             ++ arg ++ dquote ++ "."))
      else
        v <- dict_getitem mapping arg ;;
        args' <- setitem args i v ;;
        map_args command mapping rest args'
  end.

(** [Message.from_text(message_text)], lines 72-92. *)
Definition from_text (message_text : list string) : Result Message :=
  found <- find_command definitions message_text None ;;
  match found with
  | None =>
      first <- getitem message_text 0 ;;
      Raise (ValueError ("Command " ++ dquote ++ first ++ dquote
                           ++ " does not exist."))
  | Some command =>
      definition <- definitions_getitem command ;;
      let arity := arity definition in
      if negb (length (slice_from message_text 1) =? arity)%nat then
        load_name from_text_scope "self" ;;;
        Raise (ValueError (value command ++ " takes " ++ str_nat arity
                             ++ " argument(s); got "
                             ++ str_nat (length (slice_from message_text 1))
                             ++ "."))
      else
        let args := slice message_text 1 (arity + 1) in
        match mapping definition with
        | Some mapping =>
            args' <- map_args command mapping (enumerate args) args ;;
            Ok {| command := command; args := args' |}
        | None => Ok {| command := command; args := args |}
        end
  end.

(** ** Values that cross the network *)

(** A decoded JSON document, as [json.loads] returns it: [None], [bool],
    [int], [str], [list] and [dict] (integers are the only numbers the
    camera's status document is read for). *)
Inductive json : Type :=
| JNull
| JBool (b : bool)
| JNum (z : Z)
| JStr (s : string)
| JArr (l : list json)
| JObj (d : list (string * json)).

(** [j[key]] with a [str] key. *)
Definition json_getitem (j : json) (key : string) : Result json :=
  match j with
  | JObj d => dict_getitem d key
  | JArr _ => Raise (TypeError "list indices must be integers or slices, not str")
  | JStr _ => Raise (TypeError "string indices must be integers, not 'str'")
  | JNum _ => Raise (TypeError "'int' object is not subscriptable")
  | JBool _ => Raise (TypeError "'bool' object is not subscriptable")
  | JNull => Raise (TypeError "'NoneType' object is not subscriptable")
  end.

(** A [requests.Response]: the status line, the body, and what the method
    [json()] gives on that body. *)
Record Response : Type := {
  status_code : Z;
  text : string;
  json_method : Result json
}.

(** What [send_to] returns: a [str], the [Response] itself, or a value read
    out of a decoded document. *)
Inductive reply : Type :=
| RStr (s : string)
| RResponse (r : Response)
| RJson (j : json).

(** [bool(reply)], the test of [if reply:].  A [Response] is true when it is
    [ok]: its status is not in [400, 600). *)
Definition truthy (r : reply) : bool :=
  match r with
  | RStr s => negb (String.eqb s "")
  | RResponse r => negb ((400 <=? status_code r)%Z && (status_code r <? 600)%Z)
  | RJson JNull => false
  | RJson (JBool b) => b
  | RJson (JNum z) => negb (z =? 0)%Z
  | RJson (JStr s) => negb (String.eqb s "")
  | RJson (JArr l) => match l with [] => false | _ => true end
  | RJson (JObj d) => match d with [] => false | _ => true end
  end.

(** [reply.json()]. *)
Definition reply_json (r : reply) : Result json :=
  match r with
  | RResponse r => json_method r
  | RStr _ => Raise (AttributeError "'str' object has no attribute 'json'")
  | RJson _ => Raise (AttributeError "object has no attribute 'json'")
  end.

(** ** The outside world *)

(** A UDP socket object ([AF_INET], [SOCK_DGRAM]) and its broadcast option. *)
Record socket : Type := { so_broadcast : bool }.

Inductive event : Type :=
| Stderr (line : string)
| Stdout (r : reply)
| HttpGet (url : string)
| NewSocket
| SetBroadcast (on : bool)
| SendTo (sock : socket) (payload : list Z) (host : string) (port : Z)
| Sleep (num den : Z)
| SubprocessRun (argv : list string)
| Traceback (e : exn).

(** What the outside answers, given what has happened so far: the response
    or the exception of an HTTP GET, and the exception, if any, of a system
    call. *)
Record World : Type := {
  http_get : list event -> string -> Result Response;
  os_error : list event -> event -> option exn
}.

(** The global [DEBUG] and the trace of events. *)
Record state : Type := {
  DEBUG : bool;
  trace : list event
}.

Definition log (e : event) (s : state) : state :=
  {| DEBUG := DEBUG s; trace := trace s ++ [e] |}.

(** Computations of the program: they read the world, thread the state and
    may raise. *)
Definition M (A : Type) : Type := World -> state -> Result A * state.

Definition ret {A} (a : A) : M A := fun _ s => (Ok a, s).
Definition raise {A} (e : exn) : M A := fun _ s => (Raise e, s).
Definition bind {A B} (m : M A) (k : A -> M B) : M B :=
  fun w s =>
    match m w s with
    | (Ok a, s') => k a w s'
    | (Raise e, s') => (Raise e, s')
    end.
Definition lift {A} (r : Result A) : M A := fun _ s => (r, s).

Declare Scope prog_scope.
Delimit Scope prog_scope with prog.
Notation "x <- m ;; k" := (bind m (fun x => k))
  (at level 61, m at next level, right associativity) : prog_scope.
Notation "m ;;; k" := (bind m (fun _ => k))
  (at level 61, right associativity) : prog_scope.

(** An event that cannot fail. *)
Definition emit (e : event) : M unit := fun _ s => (Ok tt, log e s).

(** A system call: it is attempted, and the world says whether it raises. *)
Definition syscall (e : event) : M unit :=
  fun w s =>
    match os_error w (trace s) e with
    | Some x => (Raise x, log e s)
    | None => (Ok tt, log e s)
    end.

(** [requests.get(url)]. *)
Definition requests_get (url : string) : M Response :=
  fun w s => (http_get w (trace s) url, log (HttpGet url) s).

(** [socket.socket(socket.AF_INET, socket.SOCK_DGRAM)]. *)
Definition socket_socket : M socket :=
  bind (syscall NewSocket) (fun _ => ret {| so_broadcast := false |}).

(** [sock.setsockopt(socket.SOL_SOCKET, socket.SO_BROADCAST, 1)]: the socket
    after the call. *)
Definition setsockopt_broadcast (sock : socket) : M socket :=
  bind (syscall (SetBroadcast true)) (fun _ => ret {| so_broadcast := true |}).

(** [sock.sendto(payload, (host, port))]. *)
Definition sendto (sock : socket) (payload : list Z) (host : string) (port : Z)
    : M unit :=
  syscall (SendTo sock payload host port).

(** [time.sleep(num / den)], [den] positive.  CPython first turns the float
    into a whole number of nanoseconds and raises [OverflowError] when that
    does not fit 64 bits (a quotient too large for a float raises the same
    class), then refuses a negative length, then calls the sleep of the
    system, which may fail.  [den] is 1000 at the one call of the program:
    for it the nanoseconds of an integer [num] are a multiple of 10^6 and
    stay further from the bound 2^63 than the rounding error of the float
    operations (below 2^12), so the test is exact on the integers. *)
Definition time_sleep (num den : Z) : M unit :=
  if (2 ^ 63 * den <? Z.abs num * 10 ^ 9)%Z then
    raise (OverflowError "timestamp too large to convert to C _PyTime_t")
  else if (num <? 0)%Z then
    raise (ValueError "sleep length must be non-negative")
  else syscall (Sleep num den).

(** [debug_on()] and [debug_print(message)], lines 177-182. *)
Definition debug_on : M bool := fun _ s => (Ok (DEBUG s), s).

Definition debug_print (message : string) : M unit :=
  bind debug_on (fun on => if on then emit (Stderr message) else ret tt).

(** [enable_debug()], lines 173-175. *)
Definition enable_debug : M unit :=
  fun _ s => (Ok tt, {| DEBUG := true; trace := trace s |}).

(** ** Rendering: [str.format] and [Message._build_url] *)

(** [template.format( *args )] for templates whose replacement fields are
    the automatically numbered [{}]: each takes the next positional argument
    (a [str], inserted as it is); arguments left over are ignored; the doubled
    braces stand for one brace.  Fields with a name, an index, a conversion
    or a format spec do not occur in the catalog and are left out of the
    model. *)
Fixpoint format (template : string) (args : list string) : Result string :=
  match template with
  | EmptyString => Ok ""
  | String c rest =>
      if Ascii.eqb c "{" then
        match rest with
        | EmptyString =>
            Raise (ValueError "Single '{' encountered in format string")
        | String d rest' =>
            if Ascii.eqb d "}" then
              match args with
              | a :: args' => r <- format rest' args' ;; Ok (a ++ r)%string
              | [] => Raise (IndexError
                        "Replacement index out of range for positional args tuple")
              end
            else if Ascii.eqb d "{" then
              r <- format rest' args ;; Ok (String "{" r)
            else Raise (NotModelled "replacement field other than {}")
        end
      else if Ascii.eqb c "}" then
        match rest with
        | EmptyString =>
            Raise (ValueError "Single '}' encountered in format string")
        | String d rest' =>
            if Ascii.eqb d "}" then
              r <- format rest' args ;; Ok (String "}" r)
            else Raise (ValueError "Single '}' encountered in format string")
        end
      else r <- format rest args ;; Ok (String c r)
  end.

(** [Message._build_url(gopro)], lines 111-112. *)
Definition _build_url (self : Message) (gopro : GoPro) : Result string :=
  definition <- definitions_getitem (command self) ;;
  path <- format (template definition) (args self) ;;
  Ok ("http://" ++ ip_address gopro ++ "/gp/gpControl" ++ path)%string.

(** ** Bytes *)

(** The value of a hexadecimal digit. *)
Definition hex_digit (c : ascii) : option Z :=
  let n := Z.of_nat (nat_of_ascii c) in
  if ((48 <=? n) && (n <=? 57))%Z then Some (n - 48)%Z
  else if ((97 <=? n) && (n <=? 102))%Z then Some (n - 87)%Z
  else if ((65 <=? n) && (n <=? 70))%Z then Some (n - 55)%Z
  else None.

(** The ASCII white space [bytes.fromhex] skips between bytes. *)
Definition is_ascii_space (c : ascii) : bool :=
  let n := nat_of_ascii c in
  ((9 <=? n) && (n <=? 13) || (n =? 32))%nat.

(** [bytes.fromhex(s)]: white space is skipped before a byte, then two
    hexadecimal digits make one byte, the high digit first. *)
Fixpoint fromhex (s : string) : Result (list Z) :=
  match s with
  | EmptyString => Ok []
  | String c rest =>
      if is_ascii_space c then fromhex rest
      else
        match hex_digit c, rest with
        | Some top, String d rest' =>
            match hex_digit d with
            | Some bot =>
                bs <- fromhex rest' ;;
                Ok ((Z.shiftl top 4 + bot)%Z :: bs)
            | None => Raise (ValueError
                        "non-hexadecimal number found in fromhex() arg")
            end
        | _, _ => Raise (ValueError
                    "non-hexadecimal number found in fromhex() arg")
        end
  end.

(** [s.encode()]: UTF-8 of the characters with codes below 256. *)
Fixpoint encode (s : string) : list Z :=
  match s with
  | EmptyString => []
  | String c rest =>
      let n := Z.of_nat (nat_of_ascii c) in
      if (n <? 128)%Z then n :: encode rest
      else Z.lor 192 (Z.shiftr n 6) :: Z.lor 128 (Z.land n 63) :: encode rest
  end.

Local Open Scope prog_scope.

(** ** [send_wake_on_lan(gopro)], lines 165-171 *)

Definition GOPRO_WAKE_ON_LAN_PORT : Z := 9.

Definition send_wake_on_lan (gopro : GoPro) : M unit :=
  let hex_message := ("FFFFFFFFFFFF" ++ str_mul (mac_address gopro) 16)%string in
  payload <- lift (fromhex hex_message) ;;
  sock <- socket_socket ;;
  sock <- setsockopt_broadcast sock ;;
  sendto sock payload (ip_address gopro) GOPRO_WAKE_ON_LAN_PORT.

(** ** [keepalive(gopro)], lines 158-163 *)

Definition newline : string := String "010"%char EmptyString.

Definition keepalive_payload : list Z := encode ("_GPHD_:0:0:2:0.000000" ++ newline)%string.

(** One round of the [while True] loop. *)
Definition keepalive_tick (gopro : GoPro) : M unit :=
  sock <- socket_socket ;;
  sendto sock keepalive_payload (ip_address gopro) udp_port ;;;
  time_sleep (keepalive_period gopro) 1000.

(** The loop, observed for [ticks] rounds: [Ok tt] says that the loop is
    still running after them, [Raise e] that [e] left the loop. *)
Fixpoint keepalive (ticks : nat) (gopro : GoPro) : M unit :=
  match ticks with
  | O => ret tt
  | S n => keepalive_tick gopro ;;; keepalive n gopro
  end.



(** ** [Message.send_to(gopro)], lines 94-109 *)

(** [Message(CommandEnum.GET_STATUS)]: the default [args] is the empty list. *)
Definition Message_GET_STATUS : Message := {| command := GET_STATUS; args := [] |}.

(** [send_to] calls itself on line 100.  [depth] bounds how many such calls
    may nest; [send_to] below gives it the one level the code can reach. *)
Fixpoint send_to_rec (depth : nat) (self : Message) (gopro : GoPro) : M reply :=
  if CommandEnum_eqb (command self) WAKE then
    debug_print ("WOL " ++ mac_address gopro) ;;;
    send_wake_on_lan gopro ;;;
    ret (RStr "")
  else if CommandEnum_eqb (command self) GET_BATTERY_LEVEL then
    match depth with
    | O => raise (NotModelled "send_to nested deeper than the bound")
    | S depth' =>
        status <- send_to_rec depth' Message_GET_STATUS gopro ;;
        doc <- lift (reply_json status) ;;
        inner <- lift (json_getitem doc "status") ;;
        level <- lift (json_getitem inner "2") ;;
        ret (RJson level)
    end
  else
    url <- lift (_build_url self gopro) ;;
    debug_print ("GET " ++ url) ;;;
    url <- lift (_build_url self gopro) ;;
    reply <- requests_get url ;;
    if CommandEnum_eqb (command self) STREAM then
      if (status_code reply =? 200)%Z then ret (RStr "1") else ret (RStr "0")
    else ret (RResponse reply).

Definition send_to (self : Message) (gopro : GoPro) : M reply :=
  send_to_rec 1 self gopro.

(** ** The command loop of [main], lines 142-154 *)

(** White space of [str.strip()] among the characters below 256. *)
Definition is_space (c : ascii) : bool :=
  let n := nat_of_ascii c in
  ((9 <=? n) && (n <=? 13) || (28 <=? n) && (n <=? 32)
   || (n =? 133) || (n =? 160))%nat.

Fixpoint lstrip (s : string) : string :=
  match s with
  | EmptyString => ""
  | String c rest => if is_space c then lstrip rest else s
  end.

Fixpoint rstrip (s : string) : string :=
  match s with
  | EmptyString => ""
  | String c rest =>
      match rstrip rest with
      | EmptyString => if is_space c then "" else String c ""
      | r => String c r
      end
  end.

(** [s.strip()]. *)
Definition strip (s : string) : string := rstrip (lstrip s).

(** [s.split(sep)] for a separator of one character: every occurrence of
    the separator ends a piece, so the result has at least one piece. *)
Fixpoint split (s : string) (sep : ascii) : list string :=
  match s with
  | EmptyString => [""]
  | String c rest =>
      if Ascii.eqb c sep then "" :: split rest sep
      else
        match split rest sep with
        | piece :: pieces => String c piece :: pieces
        | [] => [String c ""]
        end
  end.

(** One round of [for line in sys.stdin], with the media player's path
    [config[gpc][mpv-path]] as [mpv_path].  [Ok tt] goes on to the next line
    (the [continue] of line 148 included); [Raise e] leaves the loop. *)
Definition process_line (mpv_path : string) (gopro : GoPro) (line : string)
    : M unit :=
  let command_text := strip line in
  match from_text (split command_text " ") with
  | Raise e =>
      if isinstance_ValueError e then
        debug_print ("Error for " ++ dquote ++ command_text ++ dquote ++ ": "
                       ++ str_exn e)
      else raise e
  | Ok message =>
      reply <- send_to message gopro ;;
      (if truthy reply then emit (Stdout reply) else ret tt) ;;;
      if CommandEnum_eqb (command message) STREAM then
        syscall (SubprocessRun
                   [mpv_path; "--profile=low-latency";
                    ("udp://" ++ ip_address gopro ++ ":"
                       ++ str_nat (Z.to_nat udp_port))%string])
      else ret tt
  end.

(** The loop over the lines of standard input. *)
Fixpoint command_loop (mpv_path : string) (gopro : GoPro) (lines : list string)
    : M unit :=
  match lines with
  | [] => ret tt
  | line :: rest =>
      process_line mpv_path gopro line ;;; command_loop mpv_path gopro rest
  end.

(** ** The variant GoPro.py *)

Module GoProPy.

(** [class GoPro], lines 19-26. *)
Record GoPro : Type := {
  ip_address : string;
  mac_address : string;
  keepalive_period : Z;
  url : string
}.

(** [GoPro.__init__], from the three values read from the configuration. *)
Definition GoPro_init (ip mac : string) (period : Z) : GoPro :=
  {| ip_address := ip; mac_address := mac; keepalive_period := period;
     url := ("http://" ++ ip ++ "/gp/gpControl/")%string |}.

(** [Command.CommandEnum], lines 31-43. *)
Inductive CommandEnum : Type :=
| WAKE
| RECORD_START
| RECORD_STOP
| VIDEO_RESOLUTION
| ZOOM
| POWER_OFF
| DISPLAY_ON
| DISPLAY_OFF
| DEFAULT_BOOT_MODE
| GET_BATTERY_LIFE
| BITRATE.

Definition value (c : CommandEnum) : string :=
  match c with
  | WAKE => "wake"
  | RECORD_START => "record_start"
  | RECORD_STOP => "record_stop"
  | VIDEO_RESOLUTION => "video_resolution"
  | ZOOM => "zoom"
  | POWER_OFF => "power_off"
  | DISPLAY_ON => "display_on"
  | DISPLAY_OFF => "display_off"
  | DEFAULT_BOOT_MODE => "default_boot_mode"
  | GET_BATTERY_LIFE => "get_battery_life"
  | BITRATE => "bitrate"
  end.

Definition CommandEnum_eq_dec (a b : CommandEnum) : {a = b} + {a <> b}.
Proof. decide equality. Defined.

Definition CommandEnum_eqb (a b : CommandEnum) : bool :=
  if CommandEnum_eq_dec a b then true else false.

(** [Command.definitions], lines 45-56; [WAKE] has no entry. *)
Definition definitions : list (CommandEnum * definition) :=
  [ (POWER_OFF, {| arity := 0; template := "command/system/sleep"; mapping := None |});
    (ZOOM,
      {| arity := 1; template := "command/digital_zoom?range_pcnt={}";
         mapping := None |});
    (VIDEO_RESOLUTION,
      {| arity := 1; template := "setting/2/{}";
         mapping := Some [("4k", "1"); ("1440p", "7"); ("1080p", "9"); ("720p", "12")] |});
    (DEFAULT_BOOT_MODE,
      {| arity := 1; template := "setting/53/{}";
         mapping := Some [("video", "0"); ("photo", "1"); ("multishot", "2")] |});
    (BITRATE, {| arity := 1; template := "setting/62/{}"; mapping := None |});
    (RECORD_START, {| arity := 0; template := "command/shutter?p=1"; mapping := None |});
    (RECORD_STOP, {| arity := 0; template := "command/shutter?p=0"; mapping := None |});
    (DISPLAY_ON, {| arity := 0; template := "setting/58/1"; mapping := None |});
    (DISPLAY_OFF, {| arity := 0; template := "setting/58/0"; mapping := None |});
    (GET_BATTERY_LIFE, {| arity := 0; template := "setting/58/0"; mapping := None |}) ].

Fixpoint definitions_lookup (items : list (CommandEnum * definition))
    (c : CommandEnum) : Result definition :=
  match items with
  | [] => Raise (KeyError (value c))
  | (c', d) :: rest =>
      if CommandEnum_eqb c' c then Ok d else definitions_lookup rest c
  end.

Definition definitions_getitem (c : CommandEnum) : Result definition :=
  definitions_lookup definitions c.

Record Message : Type := {
  command : CommandEnum;
  args : list string
}.

Local Open Scope result_scope.

(** [Message.get_identifier], lines 81-82: it reads [self.kind], an attribute
    that no [Message] has. *)
Definition get_identifier : Result string :=
  Raise (AttributeError "'Message' object has no attribute 'kind'").

(** Lines 62-65. *)
Fixpoint find_command (items : list (CommandEnum * definition))
    (body : list string) (command : option CommandEnum)
    : Result (option CommandEnum) :=
  match items with
  | [] => Ok command
  | (com, _) :: rest =>
      first <- getitem body 0 ;;
      find_command rest body
        (if String.eqb (value com) first then Some com else command)
  end.

(** Lines 76-79. *)
Fixpoint map_args (mapping : dict string) (items : list (nat * string))
    (args : list string) : Result (list string) :=
  match items with
  | [] => Ok args
  | (i, arg) :: rest =>
      if negb (dict_mem mapping arg) then
        identifier <- get_identifier ;;
        Raise (ValueError (identifier ++ ": unknown argument " ++ dquote
                             ++ arg ++ dquote ++ "."))
      else
        v <- dict_getitem mapping arg ;;
        args' <- setitem args i v ;;
        map_args mapping rest args'
  end.

(** [Message.__init__(body)], lines 61-79. *)
Definition Message_init (body : list string) : Result Message :=
  found <- find_command definitions body None ;;
  match found with
  | None =>
      first <- getitem body 0 ;;
      Raise (ValueError ("Command " ++ dquote ++ first ++ dquote
                           ++ " does not exist."))
  | Some command =>
      definition <- definitions_getitem command ;;
      let arity := arity definition in
      if negb (length (slice_from body 1) =? arity)%nat then
        identifier <- get_identifier ;;
        Raise (ValueError (identifier ++ " takes " ++ str_nat arity
                             ++ " argument(s); got "
                             ++ str_nat (length (slice_from body 1)) ++ "."))
      else
        let args := slice body 1 (arity + 1) in
        match mapping definition with
        | Some mapping =>
            args' <- map_args mapping (enumerate args) args ;;
            Ok {| command := command; args := args' |}
        | None => Ok {| command := command; args := args |}
        end
  end.

(** [Message._build_url(gopro)], lines 88-89. *)
Definition _build_url (self : Message) (gopro : GoPro) : Result string :=
  definition <- definitions_getitem (command self) ;;
  path <- format (template definition) (args self) ;;
  Ok (url gopro ++ path)%string.

Local Open Scope prog_scope.

(** [Message.send_to(gopro)], lines 84-86. *)
Definition send_to (self : Message) (gopro : GoPro) : M unit :=
  url <- lift (_build_url self gopro) ;;
  debug_print ("GET " ++ url) ;;;
  url <- lift (_build_url self gopro) ;;
  requests_get url ;;;
  ret tt.

(** One round of [for line in sys.stdin], lines 114-121. *)
Definition process_line (gopro : GoPro) (line : string) : M unit :=
  let command_text := strip line in
  match Message_init (split command_text " ") with
  | Raise e =>
      if isinstance_ValueError e then
        debug_print ("Error for " ++ dquote ++ command_text ++ dquote ++ ": "
                       ++ str_exn e)
      else raise e
  | Ok message => send_to message gopro
  end.

Fixpoint command_loop (gopro : GoPro) (lines : list string) : M unit :=
  match lines with
  | [] => ret tt
  | line :: rest => process_line gopro line ;;; command_loop gopro rest
  end.

End GoProPy.

(** ** Vocabulary of the statements *)

(** The state after [debug_print(message)]. *)
Definition debugged (message : string) (s : state) : state :=
  if DEBUG s then log (Stderr message) s else s.

(** The URLs of the status request and of the streaming request. *)
Definition status_url (gopro : GoPro) : string :=
  "http://" ++ ip_address gopro ++ "/gp/gpControl/status".

Definition stream_url (gopro : GoPro) : string :=
  "http://" ++ ip_address gopro
    ++ "/gp/gpControl/execute?p1=gpStream&a1=proto_v2&c1=restart".

(** The success class of HTTP status codes, 2xx. *)
Definition http_success (code : Z) : bool :=
  ((200 <=? code) && (code <? 300))%Z.

(** A string of hexadecimal digits only. *)
Fixpoint all_hex (s : string) : bool :=
  match s with
  | EmptyString => true
  | String c rest =>
      match hex_digit c with
      | Some _ => all_hex rest
      | None => false
      end
  end.

(** The magic packet of a 6-byte address: six bytes [0xFF], then the address
    sixteen times. *)
Definition magic_packet (mac_bytes : list Z) : list Z :=
  repeat 255%Z 6 ++ concat (repeat mac_bytes 16).

Definition is_byte (b : Z) : Prop := (0 <= b < 256)%Z.

Definition is_HttpGet (e : event) : bool :=
  match e with HttpGet _ => true | _ => false end.

Definition is_Stdout (e : event) : bool :=
  match e with Stdout _ => true | _ => false end.

(** A string without braces. *)
Fixpoint brace_free (s : string) : bool :=
  match s with
  | EmptyString => true
  | String c rest =>
      negb (Ascii.eqb c "{") && negb (Ascii.eqb c "}") && brace_free rest
  end.

(** A template written as its literal pieces, one field [{}] between two
    neighbours. *)
Fixpoint join_fields (pieces : list string) : string :=
  match pieces with
  | [] => ""
  | [p] => p
  | p :: rest => p ++ "{}" ++ join_fields rest
  end.

(** The pieces with the arguments put between them in order: piece 0,
    argument 0, piece 1, argument 1, and so on. *)
Fixpoint fill (pieces args : list string) : string :=
  match pieces with
  | [] => ""
  | [p] => p
  | p :: rest =>
      match args with
      | a :: args' => p ++ a ++ fill rest args'
      | [] => p
      end
  end.

(** The largest period, in milliseconds, whose nanoseconds fit 64 bits. *)
Definition max_sleep_ms : Z := 9223372036854.


(** [s'] comes from [s] by adding events that all satisfy [P]. *)
Definition adds_only (P : event -> bool) (s s' : state) : Prop :=
  exists evs, trace s' = trace s ++ evs /\ forallb P evs = true.

(** Neither an HTTP request nor a line on standard output. *)
Definition silent (e : event) : bool := negb (is_HttpGet e || is_Stdout e).

(** The wake message. *)
Definition Message_WAKE : Message := {| command := WAKE; args := [] |}.

(** A world in which no system call fails. *)
Definition reliable (w : World) : Prop := forall h e, os_error w h e = None.

(** The literal pieces of a template, cut at each field [{}]. *)
Fixpoint split_fields (t : string) : list string :=
  match t with
  | EmptyString => [""]
  | String c rest =>
      match rest with
      | String d rest' =>
          if Ascii.eqb c "{" && Ascii.eqb d "}" then "" :: split_fields rest'
          else
            match split_fields rest with
            | p :: ps => String c p :: ps
            | [] => [String c ""]
            end
      | EmptyString => [String c ""]
      end
  end.

(** [s'] comes from [s] by adding events that all satisfy the property [P]. *)
Definition adds (P : event -> Prop) (s s' : state) : Prop :=
  exists evs, trace s' = trace s ++ evs /\ Forall P evs.

Definition is_Stderr (e : event) : bool :=
  match e with Stderr _ => true | _ => false end.

Definition is_SendTo (e : event) : bool :=
  match e with SendTo _ _ _ _ => true | _ => false end.

(** The commands that [send_to] treats alike, lines 102-103 and 109: all but
    [WAKE], [GET_BATTERY_LEVEL] and [STREAM]. *)
Definition plain (c : CommandEnum) : bool :=
  negb (CommandEnum_eqb c WAKE) && negb (CommandEnum_eqb c GET_BATTERY_LEVEL)
  && negb (CommandEnum_eqb c STREAM).

(** [Response.ok]: the status is not in [400, 600). *)
Definition ok (r : Response) : bool :=
  negb ((400 <=? status_code r)%Z && (status_code r <? 600)%Z).

(** A string with a character that is neither a hexadecimal digit nor ASCII
    white space. *)
Fixpoint has_bad_char (s : string) : bool :=
  match s with
  | EmptyString => false
  | String c rest =>
      (negb (is_ascii_space c)
       && match hex_digit c with Some _ => false | None => true end)
      || has_bad_char rest
  end.

(** The events of the keepalive loop of a session. *)
Definition keepalive_event (gopro : GoPro) (e : event) : Prop :=
  e = NewSocket
  \/ e = SendTo {| so_broadcast := false |} keepalive_payload
           (ip_address gopro) udp_port
  \/ e = Sleep (keepalive_period gopro) 1000.

(** The events of the wake sender of a session, for a payload. *)
Definition wake_event (gopro : GoPro) (payload : list Z) (e : event) : Prop :=
  e = NewSocket
  \/ e = SetBroadcast true
  \/ e = SendTo {| so_broadcast := true |} payload (ip_address gopro) 9.

(** The argument list of the media player, line 154. *)
Definition player_argv (mpv_path : string) (gopro : GoPro) : list string :=
  [mpv_path; "--profile=low-latency";
   ("udp://" ++ ip_address gopro ++ ":8554")%string].

(** The message the command loop logs for a line it skips. *)
Definition skip_message (command_text : string) (e : exn) : string :=
  "Error for " ++ dquote ++ command_text ++ dquote ++ ": " ++ str_exn e.

(** The error of an unknown first token. *)
Definition unknown_command (first : string) : exn :=
  ValueError ("Command " ++ dquote ++ first ++ dquote ++ " does not exist.").

(** A computation that keeps [DEBUG] and adds only events that satisfy [P],
    a property that may depend on the value of [DEBUG]. *)
Definition confined {A} (P : bool -> event -> Prop) (m : M A) : Prop :=
  forall w s,
    DEBUG (snd (m w s)) = DEBUG s /\ adds (P (DEBUG s)) s (snd (m w s)).

(** No line on standard error while [DEBUG] is off. *)
Definition stderr_only_in_debug (debug : bool) (e : event) : Prop :=
  debug = false -> is_Stderr e = false.

(** The exception of [get_identifier] in GoPro.py. *)
Definition no_kind : exn :=
  AttributeError "'Message' object has no attribute 'kind'".

(** ** Worlds and sessions of the examples *)

(** An endpoint that answers every request with [r]; no system call fails. *)
Definition mock_endpoint (r : Response) : World :=
  {| http_get := fun _ _ => Ok r; os_error := fun _ _ => None |}.

Definition mock_response (code : Z) (body : string) (doc : Result json)
    : Response :=
  {| status_code := code; text := body; json_method := doc |}.

(** The status document of the battery example. *)
Definition status_87 : json := JObj [("status", JObj [("2", JNum 87)])].

(** A world in which every [sendto] raises. *)
Definition unreachable_network : World :=
  {| http_get := fun _ _ => Raise (ConnectionError "Network is unreachable");
     os_error := fun _ e =>
       match e with
       | SendTo _ _ _ _ => Some (OSError "Network is unreachable")
       | _ => None
       end |}.

Definition example_session : GoPro :=
  {| ap_ssid := "gopro"; ap_password := "secret"; ip_address := "10.5.5.9";
     mac_address := "AABBCCDDEEFF"; keepalive_period := 2500 |}.

Definition initial (debug : bool) : state := {| DEBUG := debug; trace := [] |}.

(** * Properties *)

(** ** Parsing: [Message.from_text] *)

Section Parsing.

Local Open Scope result_scope.

Lemma getitem_head {A} (x : A) (l : list A) : getitem (x :: l) 0 = Ok x.
Proof. reflexivity. Qed.

(** Every member of the enumeration has an entry in the catalog. *)
Lemma definitions_total (c : CommandEnum) :
  exists d, definitions_getitem c = Ok d.
Proof. destruct c; eexists; reflexivity. Qed.

(** The loop of lines 75-77 finds the member whose value is the first
    token. *)
Lemma find_command_value (c : CommandEnum) (rest : list string) :
  find_command definitions (value c :: rest) None = Ok (Some c).
Proof. destruct c; reflexivity. Qed.

(** What [from_text] does once the first token is the value of [c]. *)
Lemma from_text_known (c : CommandEnum) (d : definition) (rest : list string) :
  definitions_getitem c = Ok d ->
  from_text (value c :: rest) =
    if negb (length rest =? arity d)%nat then
      load_name from_text_scope "self" ;;;
      Raise (ValueError (value c ++ " takes " ++ str_nat (arity d)
                           ++ " argument(s); got " ++ str_nat (length rest)
                           ++ "."))
    else
      match mapping d with
      | Some m =>
          args' <- map_args c m (enumerate (firstn (arity d) rest))
                     (firstn (arity d) rest) ;;
          Ok {| command := c; args := args' |}
      | None => Ok {| command := c; args := firstn (arity d) rest |}
      end.
Proof.
  intros Hd. unfold from_text.
  rewrite find_command_value. cbn [rbind]. rewrite Hd. cbn [rbind].
  unfold slice_from, slice. cbn [skipn length].
  replace (arity d + 1 - 1)%nat with (arity d) by lia.
  reflexivity.
Qed.

(** [self] is not a name of the scope of [from_text]. *)
Lemma load_self :
  load_name from_text_scope "self"
  = Raise (NameError "name 'self' is not defined").
Proof. reflexivity. Qed.

(** The empty string is the value of no member. *)
Lemma find_command_blank (rest : list string) :
  find_command definitions ("" :: rest) None = Ok None.
Proof. reflexivity. Qed.

(** [split] always gives at least one piece. *)
Lemma split_not_nil (s : string) (sep : ascii) : split s sep <> [].
Proof.
  destruct s as [|c s]; cbn [split]; [discriminate|].
  destruct (Ascii.eqb c sep); [discriminate|].
  destruct (split s sep); discriminate.
Qed.

End Parsing.

(** C1 (code defect).  A known command followed by a number of tokens other
    than its arity does not fail with the [ValueError] that line 84 means to
    raise: building the message loads the name [self], which the class
    method does not bind, so [from_text] raises [NameError].  The handler
    [except ValueError] of the command loop does not catch it and the loop
    ends. *)
Theorem from_text_arity_mismatch_NameError :
  forall (c : CommandEnum) (d : definition) (rest : list string),
    definitions_getitem c = Ok d ->
    length rest <> arity d ->
    from_text (value c :: rest) = Raise (NameError "name 'self' is not defined")
    /\ isinstance_ValueError (NameError "name 'self' is not defined") = false
    /\ (forall mpv gopro line w s,
          split (strip line) " " = value c :: rest ->
          process_line mpv gopro line w s
          = (Raise (NameError "name 'self' is not defined"), s)).
Proof.
  intros c d rest Hd Hlen.
  assert (H : from_text (value c :: rest)
              = Raise (NameError "name 'self' is not defined")).
  { rewrite (from_text_known c d rest Hd).
    apply Nat.eqb_neq in Hlen. rewrite Hlen. reflexivity. }
  split; [exact H|]. split; [reflexivity|].
  intros mpv gopro line w s Hsplit.
  unfold process_line. rewrite Hsplit, H. reflexivity.
Qed.

Lemma from_text_arity_mismatch_zoom :
  from_text ["zoom"] = Raise (NameError "name 'self' is not defined")
  /\ isinstance_ValueError (NameError "name 'self' is not defined") = false
  /\ (forall mpv gopro line w s,
        split (strip line) " " = ["zoom"] ->
        process_line mpv gopro line w s
        = (Raise (NameError "name 'self' is not defined"), s)).
Proof.
  apply (from_text_arity_mismatch_NameError ZOOM
           {| arity := 1; template := "/command/digital_zoom?range_pcnt={}";
              mapping := None |} []).
  - reflexivity.
  - cbn. lia.
Defined.

(** C2 (code defect).  For a command with a value mapping and a token that
    is not a key of it, [from_text] does not fail with the [ValueError] that
    line 90 means to raise: the message again loads [self], and the call
    raises [NameError], which the command loop does not catch. *)
Theorem from_text_unknown_argument_NameError :
  forall (c : CommandEnum) (d : definition) (m : dict string) (bad : string),
    definitions_getitem c = Ok d ->
    mapping d = Some m ->
    dict_mem m bad = false ->
    from_text [value c; bad] = Raise (NameError "name 'self' is not defined")
    /\ (forall mpv gopro line w s,
          split (strip line) " " = [value c; bad] ->
          process_line mpv gopro line w s
          = (Raise (NameError "name 'self' is not defined"), s)).
Proof.
  intros c d m bad Hd Hm Hbad.
  assert (H : from_text [value c; bad]
              = Raise (NameError "name 'self' is not defined")).
  { rewrite (from_text_known c d [bad] Hd).
    destruct c; vm_compute in Hd; inversion Hd; subst d;
      cbn in Hm; try discriminate; inversion Hm; subst m;
      cbn [arity length Nat.eqb negb mapping firstn enumerate enumerate_from
           map_args]; rewrite Hbad; reflexivity. }
  split; [exact H|].
  intros mpv gopro line w s Hsplit.
  unfold process_line. rewrite Hsplit, H. reflexivity.
Qed.

Lemma from_text_unknown_argument_video_resolution :
  from_text ["video_resolution"; "bad_token"]
  = Raise (NameError "name 'self' is not defined")
  /\ (forall mpv gopro line w s,
        split (strip line) " " = ["video_resolution"; "bad_token"] ->
        process_line mpv gopro line w s
        = (Raise (NameError "name 'self' is not defined"), s)).
Proof.
  apply (from_text_unknown_argument_NameError VIDEO_RESOLUTION
           {| arity := 1; template := "/setting/2/{}";
              mapping := Some [("4k", "1"); ("1440p", "7"); ("1080p", "9");
                               ("720p", "12")] |}
           [("4k", "1"); ("1440p", "7"); ("1080p", "9"); ("720p", "12")]
           "bad_token"); reflexivity.
Defined.

(** C5, as the claim states it, fails: the exception of [from_text []] is
    not one that [except ValueError] catches. *)
Lemma from_text_empty_not_recoverable :
  ~ (exists e, from_text [] = Raise e /\ isinstance_ValueError e = true).
Proof.
  intros [e [H Hv]]. vm_compute in H. inversion H; subst e. discriminate.
Qed.

(** C5 (amended).  [from_text] has no test for an empty token list: on [[]]
    the first evaluation of [message_text[0]] raises [IndexError], which is
    not a [ValueError].  The command loop never passes an empty list, since
    [split] gives at least one piece; a blank line gives the one empty token,
    which fails with the [ValueError] of an unknown command, and the loop
    logs it and goes on. *)
Theorem from_text_empty_IndexError :
  from_text [] = Raise (IndexError "list index out of range")
  /\ isinstance_ValueError (IndexError "list index out of range") = false
  /\ (forall line sep, split (strip line) sep <> [])
  /\ from_text [""]
     = Raise (ValueError ("Command " ++ dquote ++ dquote ++ " does not exist."))
  /\ (forall mpv gopro line w s,
        strip line = "" ->
        process_line mpv gopro line w s
        = debug_print ("Error for " ++ dquote ++ dquote ++ ": Command "
                         ++ dquote ++ dquote ++ " does not exist.") w s).
Proof.
  split; [reflexivity|]. split; [reflexivity|].
  split; [intros; apply split_not_nil|]. split; [reflexivity|].
  intros mpv gopro line w s Hblank.
  unfold process_line. rewrite Hblank. reflexivity.
Qed.

(** ** Dispatch: [Message.send_to] *)

Section Dispatch.

Variable gopro : GoPro.
Variable w : World.

Lemma debug_print_run (message : string) (s : state) :
  debug_print message w s = (Ok tt, debugged message s).
Proof.
  unfold debug_print, debug_on, bind, debugged, emit, ret.
  destruct (DEBUG s); reflexivity.
Qed.

Lemma debugged_DEBUG (message : string) (s : state) :
  DEBUG (debugged message s) = DEBUG s.
Proof. unfold debugged. destruct (DEBUG s) eqn:E; [exact E | exact E]. Qed.

(** The status request does not nest: any bound gives the same run. *)
Lemma send_to_rec_status (d d' : nat) :
  send_to_rec d Message_GET_STATUS gopro = send_to_rec d' Message_GET_STATUS gopro.
Proof. destruct d, d'; reflexivity. Qed.

(** One level of nesting is all that [send_to] needs: a larger bound gives
    the same run, and the bound is never hit. *)
Lemma send_to_rec_enough (d : nat) (self : Message) :
  send_to_rec (S d) self gopro = send_to self gopro.
Proof.
  unfold send_to. cbn [send_to_rec].
  rewrite (send_to_rec_status d 0). reflexivity.
Qed.

(** Line 100, spelled out. *)
Lemma send_to_battery_unfold (a : list string) :
  send_to {| command := GET_BATTERY_LEVEL; args := a |} gopro
  = (status <- send_to_rec 0 Message_GET_STATUS gopro ;;
     doc <- lift (reply_json status) ;;
     inner <- lift (json_getitem doc "status") ;;
     level <- lift (json_getitem inner "2") ;;
     ret (RJson level)).
Proof. reflexivity. Qed.

(** The URL of a command whose template has no field. *)
Lemma build_url_status (a : list string) :
  _build_url {| command := GET_STATUS; args := a |} gopro = Ok (status_url gopro).
Proof. reflexivity. Qed.

Lemma build_url_stream (a : list string) :
  _build_url {| command := STREAM; args := a |} gopro = Ok (stream_url gopro).
Proof. reflexivity. Qed.

(** The run of the status request. *)
Lemma send_to_status_run (d : nat) (a : list string) (s : state) :
  send_to_rec d {| command := GET_STATUS; args := a |} gopro w s
  = let s1 := debugged ("GET " ++ status_url gopro) s in
    (match http_get w (trace s1) (status_url gopro) with
     | Ok r => Ok (RResponse r)
     | Raise e => Raise e
     end, log (HttpGet (status_url gopro)) s1).
Proof.
  destruct d; cbn [send_to_rec command CommandEnum_eqb];
    change (CommandEnum_eqb GET_STATUS WAKE) with false;
    change (CommandEnum_eqb GET_STATUS GET_BATTERY_LEVEL) with false;
    change (CommandEnum_eqb GET_STATUS STREAM) with false;
    cbv iota; rewrite build_url_status;
    unfold bind, lift; rewrite debug_print_run; unfold requests_get, ret;
    cbv zeta; destruct (http_get w _ _); reflexivity.
Qed.

(** The run of the streaming request. *)
Lemma send_to_stream_run (a : list string) (s : state) :
  send_to {| command := STREAM; args := a |} gopro w s
  = let s1 := debugged ("GET " ++ stream_url gopro) s in
    (match http_get w (trace s1) (stream_url gopro) with
     | Ok r => Ok (RStr (if (status_code r =? 200)%Z then "1" else "0"))
     | Raise e => Raise e
     end, log (HttpGet (stream_url gopro)) s1).
Proof.
  unfold send_to; cbn [send_to_rec command];
    change (CommandEnum_eqb STREAM WAKE) with false;
    change (CommandEnum_eqb STREAM GET_BATTERY_LEVEL) with false;
    change (CommandEnum_eqb STREAM STREAM) with true;
    cbv iota; rewrite build_url_stream;
    unfold bind, lift; rewrite debug_print_run; unfold requests_get, ret;
    cbv zeta; destruct (http_get w _ _) as [r|e]; [|reflexivity].
  destruct (status_code r =? 200)%Z; reflexivity.
Qed.

End Dispatch.

(** C3, as the claim states it, fails: an endpoint that answers 204, a status
    of the success class, gets the reply 0. *)
Lemma stream_reply_not_success_class :
  ~ (forall gopro r s,
       fst (send_to {| command := STREAM; args := [] |} gopro (mock_endpoint r) s)
       = Ok (RStr (if http_success (status_code r) then "1" else "0"))).
Proof.
  intros H.
  specialize (H example_session (mock_response 204 "" (Raise (JSONDecodeError "")))
                (initial false)).
  vm_compute in H. discriminate.
Qed.

(** C3 (amended).  Dispatching the streaming command performs one HTTP GET
    of the streaming URL and replies 1 when the status code of the response
    is 200 and 0 for every other status code; the response itself is
    dropped. *)
Theorem send_to_stream_200 :
  forall (gopro : GoPro) (w : World) (a : list string) (s : state) (r : Response),
    (forall h, http_get w h (stream_url gopro) = Ok r) ->
    send_to {| command := STREAM; args := a |} gopro w s
    = (Ok (RStr (if (status_code r =? 200)%Z then "1" else "0")),
       log (HttpGet (stream_url gopro))
         (debugged ("GET " ++ stream_url gopro) s)).
Proof.
  intros gopro w a s r Hget.
  rewrite send_to_stream_run. cbv zeta. rewrite Hget. reflexivity.
Qed.

Lemma send_to_stream_200_500 :
  fst (send_to {| command := STREAM; args := [] |} example_session
         (mock_endpoint (mock_response 200 "" (Raise (JSONDecodeError ""))))
         (initial false)) = Ok (RStr "1")
  /\ fst (send_to {| command := STREAM; args := [] |} example_session
         (mock_endpoint (mock_response 500 "" (Raise (JSONDecodeError ""))))
         (initial false)) = Ok (RStr "0").
Proof.
  split.
  - rewrite (send_to_stream_200 example_session
               (mock_endpoint (mock_response 200 "" (Raise (JSONDecodeError ""))))
               [] (initial false)
               (mock_response 200 "" (Raise (JSONDecodeError "")))).
    + reflexivity.
    + intros h. reflexivity.
  - rewrite (send_to_stream_200 example_session
               (mock_endpoint (mock_response 500 "" (Raise (JSONDecodeError ""))))
               [] (initial false)
               (mock_response 500 "" (Raise (JSONDecodeError "")))).
    + reflexivity.
    + intros h. reflexivity.
Defined.

(** C4.  Dispatching the battery-level query sends the status request (one
    HTTP GET of the status URL), decodes the body of the response and
    replies with the value at key 2 of the object at key status, not with the
    response.  For the document with 87 there, the reply is 87. *)
Theorem send_to_battery_level :
  forall (gopro : GoPro) (w : World) (a : list string) (s : state)
         (r : Response) (doc inner level : json),
    (forall h, http_get w h (status_url gopro) = Ok r) ->
    json_method r = Ok doc ->
    json_getitem doc "status" = Ok inner ->
    json_getitem inner "2" = Ok level ->
    send_to Message_GET_STATUS gopro w s
    = (Ok (RResponse r),
       log (HttpGet (status_url gopro)) (debugged ("GET " ++ status_url gopro) s))
    /\ send_to {| command := GET_BATTERY_LEVEL; args := a |} gopro w s
       = (Ok (RJson level),
          log (HttpGet (status_url gopro))
            (debugged ("GET " ++ status_url gopro) s)).
Proof.
  intros gopro w a s r doc inner level Hget Hdoc Hinner Hlevel.
  assert (Hstatus : forall d,
            send_to_rec d Message_GET_STATUS gopro w s
            = (Ok (RResponse r),
               log (HttpGet (status_url gopro))
                 (debugged ("GET " ++ status_url gopro) s))).
  { intros d. unfold Message_GET_STATUS. rewrite send_to_status_run.
    cbv zeta. rewrite Hget. reflexivity. }
  split; [apply Hstatus|].
  rewrite send_to_battery_unfold. unfold bind at 1. rewrite Hstatus.
  unfold bind, lift, ret. cbn [reply_json]. rewrite Hdoc, Hinner, Hlevel.
  reflexivity.
Qed.

Lemma send_to_battery_level_87 :
  send_to {| command := GET_BATTERY_LEVEL; args := [] |} example_session
    (mock_endpoint (mock_response 200 "" (Ok status_87))) (initial false)
  = (Ok (RJson (JNum 87)),
     {| DEBUG := false;
        trace := [HttpGet "http://10.5.5.9/gp/gpControl/status"] |}).
Proof.
  apply (send_to_battery_level example_session
           (mock_endpoint (mock_response 200 "" (Ok status_87)))
           [] (initial false) (mock_response 200 "" (Ok status_87))
           status_87 (JObj [("2", JNum 87)]) (JNum 87)).
  - intros h. reflexivity.
  - reflexivity.
  - reflexivity.
  - reflexivity.
Defined.

(** ** The wake packet: [bytes.fromhex] and [send_wake_on_lan] *)

Section Hex.

Local Open Scope result_scope.

Lemma hex_digit_range (c : ascii) (v : Z) :
  hex_digit c = Some v -> (0 <= v < 16)%Z.
Proof.
  unfold hex_digit.
  set (n := Z.of_nat (nat_of_ascii c)).
  destruct ((48 <=? n) && (n <=? 57))%Z eqn:E1.
  { intros H; inversion H; subst v. lia. }
  destruct ((97 <=? n) && (n <=? 102))%Z eqn:E2.
  { intros H; inversion H; subst v. lia. }
  destruct ((65 <=? n) && (n <=? 70))%Z eqn:E3.
  { intros H; inversion H; subst v. lia. }
  discriminate.
Qed.

(** A hexadecimal digit is not white space. *)
Lemma hex_digit_not_space (c : ascii) (v : Z) :
  hex_digit c = Some v -> is_ascii_space c = false.
Proof.
  intros Hc.
  assert (Hn : (48 <= nat_of_ascii c)%nat).
  { revert Hc. unfold hex_digit.
    set (n := Z.of_nat (nat_of_ascii c)).
    destruct ((48 <=? n) && (n <=? 57))%Z eqn:E1.
    { apply andb_prop in E1. destruct E1 as [E1 _].
      apply Z.leb_le in E1. intros _. lia. }
    destruct ((97 <=? n) && (n <=? 102))%Z eqn:E2.
    { apply andb_prop in E2. destruct E2 as [E2 _].
      apply Z.leb_le in E2. intros _. lia. }
    destruct ((65 <=? n) && (n <=? 70))%Z eqn:E3.
    { apply andb_prop in E3. destruct E3 as [E3 _].
      apply Z.leb_le in E3. intros _. lia. }
    discriminate. }
  unfold is_ascii_space. cbv zeta.
  destruct (Nat.leb_spec 9 (nat_of_ascii c)),
    (Nat.leb_spec (nat_of_ascii c) 13), (Nat.eqb_spec (nat_of_ascii c) 32);
    cbn; try reflexivity; lia.
Qed.

(** One byte from two digits. *)
Lemma byte_of_digits (top bot : Z) :
  (0 <= top < 16)%Z -> (0 <= bot < 16)%Z -> is_byte (Z.shiftl top 4 + bot).
Proof. unfold is_byte. rewrite Z.shiftl_mul_pow2 by lia. cbn. lia. Qed.

(** A string of [2 * n] hexadecimal digits decodes to [n] bytes. *)
Lemma fromhex_all_hex (n : nat) :
  forall s, String.length s = (2 * n)%nat -> all_hex s = true ->
    exists bs, fromhex s = Ok bs /\ length bs = n /\ Forall is_byte bs.
Proof.
  induction n as [|n IH]; intros s Hlen Hhex.
  - destruct s; [|discriminate]. exists []. repeat split. constructor.
  - destruct s as [|c [|d s]]; cbn in Hlen; try lia.
    cbn [all_hex] in Hhex.
    destruct (hex_digit c) as [top|] eqn:Hc; [|discriminate].
    destruct (hex_digit d) as [bot|] eqn:Hd; [|discriminate].
    destruct (IH s ltac:(lia) Hhex) as [bs [Hbs [Hn Hall]]].
    exists ((Z.shiftl top 4 + bot)%Z :: bs).
    cbn [fromhex]. rewrite (hex_digit_not_space c top Hc), Hc, Hd, Hbs.
    repeat split.
    + cbn. lia.
    + constructor; [|exact Hall].
      apply byte_of_digits; eapply hex_digit_range; eassumption.
Qed.

(** Decoding goes through a prefix made of whole bytes. *)
Lemma fromhex_app (n : nat) :
  forall s1 bs1 s2, String.length s1 = (2 * n)%nat -> all_hex s1 = true ->
    fromhex s1 = Ok bs1 ->
    fromhex (s1 ++ s2) = (bs2 <- fromhex s2 ;; Ok (bs1 ++ bs2)).
Proof.
  induction n as [|n IH]; intros s1 bs1 s2 Hlen Hhex H1.
  - destruct s1; [|discriminate]. cbn in H1. inversion H1; subst bs1.
    cbn. destruct (fromhex s2); reflexivity.
  - destruct s1 as [|c [|d s1]]; cbn in Hlen; try lia.
    cbn [all_hex] in Hhex.
    destruct (hex_digit c) as [top|] eqn:Hc; [|discriminate].
    destruct (hex_digit d) as [bot|] eqn:Hd; [|discriminate].
    cbn [fromhex] in H1.
    rewrite (hex_digit_not_space c top Hc), Hc, Hd in H1.
    destruct (fromhex s1) as [bs|e] eqn:Hs1; cbn [rbind] in H1; [|discriminate].
    injection H1 as <-.
    cbn [String.append fromhex].
    rewrite (hex_digit_not_space c top Hc), Hc, Hd.
    rewrite (IH s1 bs s2 ltac:(lia) Hhex Hs1).
    destruct (fromhex s2); reflexivity.
Qed.

(** Decoding a repeated string of whole bytes repeats its bytes. *)
Lemma fromhex_str_mul (n : nat) (s : string) (bs : list Z) (k : nat) :
  String.length s = (2 * n)%nat -> all_hex s = true -> fromhex s = Ok bs ->
  fromhex (str_mul s k) = Ok (concat (repeat bs k)).
Proof.
  intros Hlen Hhex Hs. induction k as [|k IH]; [reflexivity|].
  cbn [str_mul repeat concat].
  rewrite (fromhex_app n s bs _ Hlen Hhex Hs), IH. reflexivity.
Qed.

(** The payload of line 168, for an address of twelve hexadecimal digits. *)
Lemma fromhex_hex_message (mac : string) (mac_bytes : list Z) :
  String.length mac = 12%nat -> all_hex mac = true -> fromhex mac = Ok mac_bytes ->
  fromhex ("FFFFFFFFFFFF" ++ str_mul mac 16) = Ok (magic_packet mac_bytes).
Proof.
  intros Hlen Hhex Hmac.
  rewrite (fromhex_app 6 "FFFFFFFFFFFF" (repeat 255%Z 6));
    [|reflexivity|reflexivity|reflexivity].
  rewrite (fromhex_str_mul 6 mac mac_bytes 16 Hlen Hhex Hmac).
  reflexivity.
Qed.

Lemma magic_packet_length (mac_bytes : list Z) :
  length mac_bytes = 6%nat -> length (magic_packet mac_bytes) = 102%nat.
Proof.
  intros H. unfold magic_packet. cbn [repeat concat].
  repeat rewrite length_app. rewrite H. reflexivity.
Qed.

End Hex.

Section Wake.

Variable gopro : GoPro.
Variable w : World.

Lemma adds_only_refl (P : event -> bool) (s : state) : adds_only P s s.
Proof. exists []. split; [symmetry; apply app_nil_r | reflexivity]. Qed.

Lemma adds_only_log (P : event -> bool) (s s' : state) (e : event) :
  adds_only P s s' -> P e = true -> adds_only P s (log e s').
Proof.
  intros [evs [Ht Hall]] He. exists (evs ++ [e]). split.
  - cbn [log trace]. rewrite Ht. symmetry. apply app_assoc.
  - rewrite forallb_app, Hall. cbn. rewrite He. reflexivity.
Qed.

Lemma adds_only_trans (P : event -> bool) (s1 s2 s3 : state) :
  adds_only P s1 s2 -> adds_only P s2 s3 -> adds_only P s1 s3.
Proof.
  intros [e1 [H1 A1]] [e2 [H2 A2]]. exists (e1 ++ e2). split.
  - rewrite H2, H1. symmetry. apply app_assoc.
  - rewrite forallb_app, A1, A2. reflexivity.
Qed.

Lemma adds_only_debugged (message : string) (s : state) :
  adds_only silent s (debugged message s).
Proof.
  unfold debugged. destruct (DEBUG s).
  - apply adds_only_log; [apply adds_only_refl | reflexivity].
  - apply adds_only_refl.
Qed.

(** Whatever the world does, the wake sender adds socket events only. *)
Lemma send_wake_on_lan_silent (s : state) :
  adds_only silent s (snd (send_wake_on_lan gopro w s)).
Proof.
  unfold send_wake_on_lan, socket_socket, setsockopt_broadcast, sendto,
    syscall, lift, ret, bind.
  destruct (fromhex _) as [payload|e]; [|apply adds_only_refl].
  destruct (os_error w (trace s) NewSocket); cbn [snd];
    [apply adds_only_log; [apply adds_only_refl | reflexivity]|].
  destruct (os_error w (trace (log NewSocket s)) (SetBroadcast true)); cbn [snd];
    [repeat (apply adds_only_log; [|reflexivity]); apply adds_only_refl|].
  destruct (os_error w _ _); cbn [snd];
    repeat (apply adds_only_log; [|reflexivity]); apply adds_only_refl.
Qed.

(** The run of the wake sender in a world without failures. *)
Lemma send_wake_on_lan_run (s : state) (payload : list Z) :
  fromhex ("FFFFFFFFFFFF" ++ str_mul (mac_address gopro) 16) = Ok payload ->
  reliable w ->
  send_wake_on_lan gopro w s
  = (Ok tt,
     {| DEBUG := DEBUG s;
        trace := trace s ++ [NewSocket; SetBroadcast true;
                             SendTo {| so_broadcast := true |} payload
                               (ip_address gopro) 9] |}).
Proof.
  intros Hpayload Hw.
  unfold send_wake_on_lan, socket_socket, setsockopt_broadcast, sendto,
    syscall, lift, ret, bind.
  rewrite Hpayload. rewrite !Hw. unfold log. cbn [trace DEBUG].
  rewrite <- !app_assoc. reflexivity.
Qed.

(** Lines 95-98, spelled out. *)
Lemma send_to_wake_unfold (a : list string) :
  send_to {| command := WAKE; args := a |} gopro
  = (debug_print ("WOL " ++ mac_address gopro) ;;;
     send_wake_on_lan gopro ;;;
     ret (RStr "")).
Proof. reflexivity. Qed.

Lemma send_to_wake_run (a : list string) (s : state) :
  send_to {| command := WAKE; args := a |} gopro w s
  = match send_wake_on_lan gopro w (debugged ("WOL " ++ mac_address gopro) s) with
    | (Ok _, s1) => (Ok (RStr ""), s1)
    | (Raise e, s1) => (Raise e, s1)
    end.
Proof.
  rewrite send_to_wake_unfold. unfold bind at 1. rewrite debug_print_run.
  unfold bind, ret. destruct (send_wake_on_lan _ _ _) as [[u|e] s1]; reflexivity.
Qed.

End Wake.

(** C6.  For a session whose MAC address is twelve hexadecimal digits, the
    address decodes to six bytes and the payload of the wake sender is the
    magic packet of these bytes: six bytes 0xFF, then the six bytes sixteen
    times, 102 bytes in all.  The sender makes a UDP socket, turns its
    broadcast option on and sends the payload to port 9 of the address of
    the session. *)
Theorem send_wake_on_lan_magic_packet :
  forall (gopro : GoPro),
    String.length (mac_address gopro) = 12%nat ->
    all_hex (mac_address gopro) = true ->
    exists mac_bytes,
      fromhex (mac_address gopro) = Ok mac_bytes
      /\ length mac_bytes = 6%nat
      /\ Forall is_byte mac_bytes
      /\ magic_packet mac_bytes
         = repeat 255%Z 6 ++ concat (repeat mac_bytes 16)
      /\ length (magic_packet mac_bytes) = 102%nat
      /\ forall (w : World) (s : state),
           reliable w ->
           send_wake_on_lan gopro w s
           = (Ok tt,
              {| DEBUG := DEBUG s;
                 trace := trace s
                   ++ [NewSocket; SetBroadcast true;
                       SendTo {| so_broadcast := true |}
                         (magic_packet mac_bytes) (ip_address gopro) 9] |}).
Proof.
  intros gopro Hlen Hhex.
  destruct (fromhex_all_hex 6 (mac_address gopro) Hlen Hhex)
    as [mac_bytes [Hmac [H6 Hbytes]]].
  exists mac_bytes.
  split; [exact Hmac|]. split; [exact H6|]. split; [exact Hbytes|].
  split; [reflexivity|]. split; [apply magic_packet_length; exact H6|].
  intros w s Hw.
  apply send_wake_on_lan_run; [|exact Hw].
  apply fromhex_hex_message; assumption.
Qed.

Lemma send_wake_on_lan_example :
  exists mac_bytes,
    fromhex "AABBCCDDEEFF" = Ok mac_bytes
    /\ length mac_bytes = 6%nat
    /\ Forall is_byte mac_bytes
    /\ magic_packet mac_bytes
       = repeat 255%Z 6 ++ concat (repeat mac_bytes 16)
    /\ length (magic_packet mac_bytes) = 102%nat
    /\ forall (w : World) (s : state),
         reliable w ->
         send_wake_on_lan example_session w s
         = (Ok tt,
            {| DEBUG := DEBUG s;
               trace := trace s
                 ++ [NewSocket; SetBroadcast true;
                     SendTo {| so_broadcast := true |}
                       (magic_packet mac_bytes) "10.5.5.9" 9] |}).
Proof.
  apply (send_wake_on_lan_magic_packet example_session); reflexivity.
Defined.

(** C7.  Dispatching the wake command runs the wake sender on the session
    and, when that returns, replies with the empty string (an exception of
    the sender is passed on); whatever the world does, the dispatch adds no
    HTTP request to the trace.  The empty reply is false, so the command loop
    prints nothing for a wake line. *)
Theorem send_to_wake :
  forall (gopro : GoPro) (w : World) (a : list string) (s : state),
    send_to {| command := WAKE; args := a |} gopro w s
    = match send_wake_on_lan gopro w
              (debugged ("WOL " ++ mac_address gopro) s) with
      | (Ok _, s1) => (Ok (RStr ""), s1)
      | (Raise e, s1) => (Raise e, s1)
      end
    /\ adds_only (fun e => negb (is_HttpGet e)) s
         (snd (send_to {| command := WAKE; args := a |} gopro w s))
    /\ truthy (RStr "") = false
    /\ (forall mpv line,
          from_text (split (strip line) " ") = Ok {| command := WAKE; args := a |} ->
          adds_only silent s (snd (process_line mpv gopro line w s))).
Proof.
  intros gopro w a s.
  assert (Hsilent : adds_only silent s
            (snd (send_to {| command := WAKE; args := a |} gopro w s))).
  { rewrite send_to_wake_run.
    pose proof (send_wake_on_lan_silent gopro w
                  (debugged ("WOL " ++ mac_address gopro) s)) as H.
    destruct (send_wake_on_lan _ _ _) as [[u|e] s1]; cbn [snd] in *;
      (eapply adds_only_trans; [apply adds_only_debugged | exact H]). }
  split; [apply send_to_wake_run|].
  split.
  { destruct Hsilent as [evs [Ht Hall]]. exists evs. split; [exact Ht|].
    rewrite forallb_forall in *. intros e He. specialize (Hall e He).
    unfold silent in Hall. destruct (is_HttpGet e); [discriminate | reflexivity]. }
  split; [reflexivity|].
  intros mpv line Hparse.
  unfold process_line. rewrite Hparse. unfold bind at 1.
  destruct (send_to _ _ _ _) as [[r|e] s1] eqn:Hrun; cbn [snd] in Hsilent;
    [|exact Hsilent].
  assert (Hr : r = RStr "").
  { rewrite send_to_wake_run in Hrun.
    destruct (send_wake_on_lan _ _ _) as [[u|e] s2]; inversion Hrun; reflexivity. }
  subst r. cbn [truthy String.eqb negb]. unfold bind, ret.
  change (CommandEnum_eqb (command {| command := WAKE; args := a |}) STREAM)
    with false.
  exact Hsilent.
Qed.

Lemma send_to_wake_example :
  send_to Message_WAKE example_session
    (mock_endpoint (mock_response 200 "" (Ok status_87))) (initial false)
  = (Ok (RStr ""),
     {| DEBUG := false;
        trace := [NewSocket; SetBroadcast true;
                  SendTo {| so_broadcast := true |}
                    (magic_packet [170; 187; 204; 221; 238; 255]%Z)
                    "10.5.5.9" 9] |}).
Proof.
  unfold Message_WAKE.
  rewrite (proj1 (send_to_wake example_session
                    (mock_endpoint (mock_response 200 "" (Ok status_87))) []
                    (initial false))).
  reflexivity.
Defined.

(** ** Rendering: [str.format] and [_build_url] *)

Section Rendering.

Local Open Scope result_scope.

Lemma append_nil_right (s : string) : (s ++ "")%string = s.
Proof. induction s as [|c s IH]; cbn; [reflexivity | rewrite IH; reflexivity]. Qed.

Lemma append_cancel_left (p a b : string) :
  (p ++ a)%string = (p ++ b)%string -> a = b.
Proof.
  induction p as [|c p IH]; cbn; intros H; [exact H|].
  injection H as H. apply IH. exact H.
Qed.

Lemma append_assoc (a b c : string) :
  ((a ++ b) ++ c)%string = (a ++ (b ++ c))%string.
Proof. induction a as [|x a IH]; cbn; [reflexivity | rewrite IH; reflexivity]. Qed.

(** Literal text is copied. *)
Lemma format_literal (p t : string) (args : list string) :
  brace_free p = true ->
  format (p ++ t) args = (r <- format t args ;; Ok (p ++ r)%string).
Proof.
  induction p as [|c p IH]; intros Hp.
  - cbn. destruct (format t args); reflexivity.
  - cbn [brace_free] in Hp.
    apply andb_prop in Hp. destruct Hp as [Hc Hp].
    apply andb_prop in Hc. destruct Hc as [Hopen Hclose].
    apply negb_true_iff in Hopen, Hclose.
    cbn [String.append format]. rewrite Hopen, Hclose, (IH Hp).
    destruct (format t args); reflexivity.
Qed.

(** A field takes the next argument. *)
Lemma format_field (t a : string) (args : list string) :
  format ("{}" ++ t) (a :: args) = (r <- format t args ;; Ok (a ++ r)%string).
Proof. reflexivity. Qed.

(** Fields are filled in the order of the arguments. *)
Lemma format_join_fields (pieces : list string) :
  forall args,
    forallb brace_free pieces = true ->
    (length pieces <= S (length args))%nat ->
    format (join_fields pieces) args = Ok (fill pieces args).
Proof.
  induction pieces as [|p rest IH]; intros args Hall Hlen; [reflexivity|].
  cbn [forallb] in Hall. apply andb_prop in Hall. destruct Hall as [Hp Hrest].
  destruct rest as [|q rest].
  - cbn [join_fields fill].
    rewrite <- (append_nil_right p) at 1.
    rewrite (format_literal p "" args Hp). cbn.
    rewrite append_nil_right. reflexivity.
  - destruct args as [|a args]; [cbn in Hlen; lia|].
    change (join_fields (p :: q :: rest))
      with (p ++ "{}" ++ join_fields (q :: rest))%string.
    change (fill (p :: q :: rest) (a :: args))
      with (p ++ a ++ fill (q :: rest) args)%string.
    rewrite (format_literal p _ _ Hp), format_field.
    rewrite (IH args Hrest) by (cbn in Hlen |- *; lia).
    reflexivity.
Qed.

(** Every template of the catalog is literal text with as many fields as
    the arity, and a template with one field ends with it. *)
Lemma catalog_templates (c : CommandEnum) (d : definition) :
  definitions_getitem c = Ok d ->
  template d = join_fields (split_fields (template d))
  /\ forallb brace_free (split_fields (template d)) = true
  /\ length (split_fields (template d)) = S (arity d)
  /\ (arity d = 1%nat -> exists p, split_fields (template d) = [p; ""]).
Proof.
  intros Hd.
  destruct c; vm_compute in Hd; injection Hd as <-;
    (split; [reflexivity|]; split; [reflexivity|]; split; [reflexivity|];
     cbn [arity]; intros H; first [discriminate | eexists; reflexivity]).
Qed.

Lemma build_url_fill (gopro : GoPro) (c : CommandEnum) (d : definition)
    (pieces a : list string) :
  definitions_getitem c = Ok d ->
  template d = join_fields pieces ->
  forallb brace_free pieces = true ->
  (length pieces <= S (length a))%nat ->
  _build_url {| command := c; args := a |} gopro
  = Ok ("http://" ++ ip_address gopro ++ "/gp/gpControl" ++ fill pieces a)%string.
Proof.
  intros Hd Ht Hall Hlen. unfold _build_url. cbn [command args].
  rewrite Hd. cbn [rbind]. rewrite Ht, (format_join_fields pieces a Hall Hlen).
  reflexivity.
Qed.

(** Distinct arguments of a command with one field give distinct URLs. *)
Lemma build_url_injective (gopro : GoPro) (c : CommandEnum) (d : definition)
    (a b : string) :
  definitions_getitem c = Ok d ->
  arity d = 1%nat ->
  _build_url {| command := c; args := [a] |} gopro
  = _build_url {| command := c; args := [b] |} gopro ->
  a = b.
Proof.
  intros Hd Har H.
  destruct (catalog_templates c d Hd) as [Ht [Hall [Hlen Hshape]]].
  destruct (Hshape Har) as [p Hp].
  rewrite (build_url_fill gopro c d _ [a] Hd Ht Hall) in H by (cbn; lia).
  rewrite (build_url_fill gopro c d _ [b] Hd Ht Hall) in H by (cbn; lia).
  rewrite Hp in H. cbn [fill] in H.
  injection H as H.
  apply append_cancel_left in H. injection H as H.
  apply append_cancel_left in H.
  rewrite !append_nil_right in H. exact H.
Qed.

(** The loop of lines 75-77 returns its initial value or a member whose
    value is the first token. *)
Lemma find_command_sound (items : list (CommandEnum * definition)) :
  forall first rest acc r,
    find_command items (first :: rest) acc = Ok r ->
    r = acc \/ exists c, r = Some c /\ value c = first.
Proof.
  induction items as [|[com d] items IH]; intros first rest acc r H.
  - cbn in H. injection H as <-. left. reflexivity.
  - cbn [find_command getitem rbind] in H.
    destruct (String.eqb_spec (value com) first) as [E|E].
    + destruct (IH _ _ _ _ H) as [->|Hc]; [|right; exact Hc].
      right. exists com. split; [reflexivity | exact E].
    + apply (IH _ _ _ _ H).
Qed.

(** A token list that parses starts with the value of the parsed command. *)
Lemma from_text_Ok_value (first : string) (rest : list string) (m : Message) :
  from_text (first :: rest) = Ok m -> first = value (command m).
Proof.
  intros H.
  destruct (find_command definitions (first :: rest) None) as [found|e] eqn:Hf.
  - destruct (find_command_sound _ _ _ _ _ Hf) as [->|[c [-> Hc]]].
    + unfold from_text in H. rewrite Hf in H. cbn in H. discriminate.
    + subst first.
      destruct (definitions_total c) as [d Hd].
      rewrite (from_text_known c d rest Hd) in H.
      destruct (negb (length rest =? arity d)%nat); [discriminate|].
      destruct (mapping d) as [mp|].
      * destruct (map_args c mp _ _); cbn [rbind] in H; [|discriminate].
        injection H as <-. reflexivity.
      * injection H as <-. reflexivity.
  - unfold from_text in H. rewrite Hf in H. cbn in H. discriminate.
Qed.

(** Parsing one argument: the token itself, or its image under the mapping. *)
Lemma from_text_one_argument (c : CommandEnum) (d : definition) (t : string)
    (m : Message) :
  definitions_getitem c = Ok d ->
  from_text [value c; t] = Ok m ->
  arity d = 1%nat
  /\ exists v, m = {| command := c; args := [v] |}
       /\ match mapping d with
          | Some mp => dict_get mp t = Some v
          | None => v = t
          end.
Proof.
  intros Hd H. rewrite (from_text_known c d [t] Hd) in H.
  destruct (Nat.eqb_spec (length [t]) (arity d)) as [E|E];
    cbn [negb] in H; [|discriminate].
  cbn [length] in E. split; [symmetry; exact E|].
  rewrite <- E in H. cbn [firstn enumerate enumerate_from] in H.
  destruct (mapping d) as [mp|].
  - cbn [map_args] in H. unfold dict_mem, dict_getitem in H.
    destruct (dict_get mp t) as [v|]; cbn in H; [|discriminate].
    injection H as <-. exists v. split; reflexivity.
  - injection H as <-. exists t. split; reflexivity.
Qed.

(** The mappings of the catalog send distinct keys to distinct codes. *)
Lemma catalog_mappings_injective (c : CommandEnum) (d : definition)
    (mp : dict string) (t1 t2 v : string) :
  definitions_getitem c = Ok d ->
  mapping d = Some mp ->
  dict_get mp t1 = Some v -> dict_get mp t2 = Some v -> t1 = t2.
Proof.
  intros Hd Hm H1 H2.
  destruct c; vm_compute in Hd; injection Hd as <-; cbn [mapping] in Hm;
    try discriminate; injection Hm as <-; cbn [dict_get] in H1, H2;
    repeat match type of H1 with
           | context [String.eqb ?k t1] =>
               destruct (String.eqb_spec k t1); [subst t1|]
           end;
    try discriminate; injection H1 as <-;
    repeat match type of H2 with
           | context [String.eqb ?k t2] =>
               destruct (String.eqb_spec k t2); [subst t2|]
           end;
    try discriminate; reflexivity.
Qed.

End Rendering.

(** C8.  [str.format] fills the fields of a template in the order of the
    arguments, none skipped and none moved; [_build_url] puts the filled
    template of the command after the base URL of the session; for a command
    with one field, two parsed lines with distinct argument tokens render to
    distinct URLs.  The lines video_resolution 4k and video_resolution 1080p
    render to URLs that end in /setting/2/1 and /setting/2/9. *)
Theorem build_url_positional_injective :
  (forall pieces args,
     forallb brace_free pieces = true ->
     (length pieces <= S (length args))%nat ->
     format (join_fields pieces) args = Ok (fill pieces args))
  /\ (forall gopro c d a,
        definitions_getitem c = Ok d ->
        length a = arity d ->
        template d = join_fields (split_fields (template d))
        /\ length (split_fields (template d)) = S (arity d)
        /\ _build_url {| command := c; args := a |} gopro
           = Ok ("http://" ++ ip_address gopro ++ "/gp/gpControl"
                   ++ fill (split_fields (template d)) a)%string)
  /\ (forall gopro c d a b,
        definitions_getitem c = Ok d ->
        arity d = 1%nat ->
        _build_url {| command := c; args := [a] |} gopro
        = _build_url {| command := c; args := [b] |} gopro ->
        a = b)
  /\ (forall gopro name t1 t2 m1 m2,
        from_text [name; t1] = Ok m1 ->
        from_text [name; t2] = Ok m2 ->
        _build_url m1 gopro = _build_url m2 gopro ->
        t1 = t2)
  /\ (forall gopro,
        rbind (from_text ["video_resolution"; "4k"])
          (fun m => _build_url m gopro)
        = Ok ("http://" ++ ip_address gopro ++ "/gp/gpControl/setting/2/1")%string)
  /\ (forall gopro,
        rbind (from_text ["video_resolution"; "1080p"])
          (fun m => _build_url m gopro)
        = Ok ("http://" ++ ip_address gopro ++ "/gp/gpControl/setting/2/9")%string).
Proof.
  split; [exact format_join_fields|].
  split.
  { intros gopro c d a Hd Ha.
    destruct (catalog_templates c d Hd) as [Ht [Hall [Hlen _]]].
    split; [exact Ht|]. split; [exact Hlen|].
    apply (build_url_fill gopro c d _ a Hd Ht Hall). lia. }
  split; [exact build_url_injective|].
  split; [|split; intros gopro; reflexivity].
  intros gopro name t1 t2 m1 m2 H1 H2 Hurl.
  pose proof (from_text_Ok_value _ _ _ H1) as Hname. subst name.
  destruct (definitions_total (command m1)) as [d Hd].
  destruct (from_text_one_argument _ d t1 m1 Hd H1) as [Har [v1 [Hm1 R1]]].
  destruct (from_text_one_argument _ d t2 m2 Hd H2) as [_ [v2 [Hm2 R2]]].
  rewrite Hm1, Hm2 in Hurl. cbn [command] in Hurl.
  pose proof (build_url_injective gopro _ d v1 v2 Hd Har Hurl) as Hv. subst v2.
  destruct (mapping d) as [mp|] eqn:Hmp.
  - exact (catalog_mappings_injective _ d mp t1 t2 v1 Hd Hmp R1 R2).
  - congruence.
Qed.

Lemma build_url_video_resolution_4k :
  format (join_fields ["/setting/2/"; ""]) ["1"] = Ok "/setting/2/1".
Proof.
  apply (proj1 build_url_positional_injective ["/setting/2/"; ""] ["1"]).
  - reflexivity.
  - cbn. lia.
Defined.

(** ** The keepalive loop *)

Section Keepalive.

Variable gopro : GoPro.
Variable w : World.


Lemma time_sleep_negative (ms : Z) (s : state) :
  (- max_sleep_ms <= ms < 0)%Z ->
  time_sleep ms 1000 w s
  = (Raise (ValueError "sleep length must be non-negative"), s).
Proof.
  intros Hms. unfold time_sleep, max_sleep_ms in *.
  change (2 ^ 63 * 1000)%Z with 9223372036854775808000%Z.
  change (10 ^ 9)%Z with 1000000000%Z.
  destruct (Z.ltb_spec 9223372036854775808000 (Z.abs ms * 1000000000));
    [lia|].
  destruct (Z.ltb_spec ms 0); [reflexivity | lia].
Qed.

Lemma time_sleep_overflow (ms : Z) (s : state) :
  (max_sleep_ms < Z.abs ms)%Z ->
  time_sleep ms 1000 w s
  = (Raise (OverflowError "timestamp too large to convert to C _PyTime_t"), s).
Proof.
  intros Hms. unfold time_sleep, max_sleep_ms in *.
  change (2 ^ 63 * 1000)%Z with 9223372036854775808000%Z.
  change (10 ^ 9)%Z with 1000000000%Z.
  destruct (Z.ltb_spec 9223372036854775808000 (Z.abs ms * 1000000000));
    [reflexivity | lia].
Qed.

(** One round up to the sleep, when the socket and the send succeed. *)
Lemma keepalive_tick_sent (s : state) :
  os_error w (trace s) NewSocket = None ->
  os_error w (trace s ++ [NewSocket])
    (SendTo {| so_broadcast := false |} keepalive_payload (ip_address gopro)
       udp_port) = None ->
  keepalive_tick gopro w s
  = time_sleep (keepalive_period gopro) 1000 w
      {| DEBUG := DEBUG s;
         trace := trace s
           ++ [NewSocket;
               SendTo {| so_broadcast := false |} keepalive_payload
                 (ip_address gopro) udp_port] |}.
Proof.
  intros Hsock Hsend.
  unfold keepalive_tick, socket_socket, sendto, syscall, ret, bind.
  rewrite Hsock. unfold log at 1 2. cbn [trace DEBUG]. rewrite Hsend.
  unfold log. cbn [trace DEBUG]. rewrite <- !app_assoc. reflexivity.
Qed.




(** An exception of the first round leaves the loop. *)
Lemma keepalive_raise (n : nat) (s s' : state) (e : exn) :
  keepalive_tick gopro w s = (Raise e, s') ->
  keepalive (S n) gopro w s = (Raise e, s').
Proof. intros H. cbn [keepalive]. unfold bind. rewrite H. reflexivity. Qed.





End Keepalive.




(** ** The variant GoPro.py *)

(** C10.  In the catalog of GoPro.py the template of [GET_BATTERY_LIFE] is
    the template of [DISPLAY_OFF], setting/58/0.  The line get_battery_life
    parses to a message without arguments, and for every session this message
    and the display-off message render to the same URL and run the same HTTP
    request. *)
Theorem battery_life_is_display_off :
  rbind (GoProPy.definitions_getitem GoProPy.GET_BATTERY_LIFE)
    (fun d => Ok (template d)) = Ok "setting/58/0"
  /\ rbind (GoProPy.definitions_getitem GoProPy.DISPLAY_OFF)
       (fun d => Ok (template d)) = Ok "setting/58/0"
  /\ GoProPy.Message_init ["get_battery_life"]
     = Ok {| GoProPy.command := GoProPy.GET_BATTERY_LIFE; GoProPy.args := [] |}
  /\ GoProPy.Message_init ["display_off"]
     = Ok {| GoProPy.command := GoProPy.DISPLAY_OFF; GoProPy.args := [] |}
  /\ (forall gopro a,
        GoProPy._build_url
          {| GoProPy.command := GoProPy.GET_BATTERY_LIFE; GoProPy.args := a |} gopro
        = Ok (GoProPy.url gopro ++ "setting/58/0")%string
        /\ GoProPy._build_url
             {| GoProPy.command := GoProPy.DISPLAY_OFF; GoProPy.args := a |} gopro
           = Ok (GoProPy.url gopro ++ "setting/58/0")%string)
  /\ (forall gopro w s,
        GoProPy.send_to
          {| GoProPy.command := GoProPy.GET_BATTERY_LIFE; GoProPy.args := [] |}
          gopro w s
        = GoProPy.send_to
            {| GoProPy.command := GoProPy.DISPLAY_OFF; GoProPy.args := [] |}
            gopro w s
        /\ snd (GoProPy.send_to
                  {| GoProPy.command := GoProPy.GET_BATTERY_LIFE;
                     GoProPy.args := [] |} gopro w s)
           = log (HttpGet (GoProPy.url gopro ++ "setting/58/0"))
               (debugged ("GET " ++ GoProPy.url gopro ++ "setting/58/0") s)).
Proof.
  split; [reflexivity|]. split; [reflexivity|].
  split; [reflexivity|]. split; [reflexivity|].
  split; [intros gopro a; split; reflexivity|].
  intros gopro w s. split; [reflexivity|].
  unfold GoProPy.send_to.
  change (GoProPy._build_url _ gopro)
    with (Ok (GoProPy.url gopro ++ "setting/58/0")%string).
  unfold lift, bind. rewrite debug_print_run.
  unfold requests_get, ret.
  destruct (http_get w _ _); reflexivity.
Qed.

(** * Further properties *)

(** ** Parsing: success, failure and the invariant of a message *)

Section ParsingMore.

Local Open Scope result_scope.

(** On a list with a first token the loop of lines 75-77 does not raise. *)
Lemma find_command_total (items : list (CommandEnum * definition)) :
  forall first rest acc,
    exists r, find_command items (first :: rest) acc = Ok r.
Proof.
  induction items as [|[com d] items IH]; intros first rest acc.
  - exists acc. reflexivity.
  - cbn [find_command getitem rbind]. apply IH.
Qed.

Lemma find_command_unknown (first : string) (rest : list string) :
  (forall c, value c <> first) ->
  find_command definitions (first :: rest) None = Ok None.
Proof.
  intros Hnone.
  destruct (find_command_total definitions first rest None) as [r Hr].
  destruct (find_command_sound _ _ _ _ _ Hr) as [->|[c [_ Hc]]]; [exact Hr|].
  exfalso. exact (Hnone c Hc).
Qed.

(** Writing inside a list, at the index after a prefix. *)
Lemma setitem_middle {A} (pre : list A) (x v : A) (l : list A) :
  setitem (pre ++ x :: l) (length pre) v = Ok (pre ++ v :: l).
Proof.
  induction pre as [|p pre IH]; [reflexivity|].
  cbn [app length setitem]. rewrite IH. reflexivity.
Qed.

(** The loop of lines 88-91 on the tail of a list, when it returns: the
    elements before the tail are kept and each element of the tail is
    replaced by its code. *)
Lemma map_args_sound (c : CommandEnum) (mp : dict string) (l : list string) :
  forall pre r,
    map_args c mp (enumerate_from (length pre) l) (pre ++ l) = Ok r ->
    exists codes,
      r = pre ++ codes
      /\ Forall2 (fun t v => dict_get mp t = Some v) l codes.
Proof.
  induction l as [|x l IH]; intros pre r H.
  - cbn in H. injection H as <-. exists []. split; [reflexivity | constructor].
  - cbn [enumerate_from map_args] in H. unfold dict_mem, dict_getitem in H.
    destruct (dict_get mp x) as [v|] eqn:Hx; cbn [negb rbind] in H.
    + rewrite setitem_middle in H. cbn [rbind] in H.
      replace (pre ++ v :: l) with ((pre ++ [v]) ++ l) in H
        by (rewrite <- app_assoc; reflexivity).
      replace (S (length pre)) with (length (pre ++ [v])) in H
        by (rewrite length_app; cbn; lia).
      destruct (IH _ _ H) as [codes [-> Hcodes]].
      exists (v :: codes). split.
      * rewrite <- app_assoc. reflexivity.
      * constructor; assumption.
    + rewrite load_self in H. discriminate.
Qed.

(** The same loop returns when every element has a code. *)
Lemma map_args_complete (c : CommandEnum) (mp : dict string) (l : list string) :
  forall pre codes,
    Forall2 (fun t v => dict_get mp t = Some v) l codes ->
    map_args c mp (enumerate_from (length pre) l) (pre ++ l)
    = Ok (pre ++ codes).
Proof.
  induction l as [|x l IH]; intros pre codes H; inversion H; subst.
  - reflexivity.
  - cbn [enumerate_from map_args]. unfold dict_mem, dict_getitem.
    match goal with Hx : dict_get mp x = Some _ |- _ => rewrite Hx end.
    cbn [negb rbind]. rewrite setitem_middle. cbn [rbind].
    match goal with
    | Hl : Forall2 _ l ?l' |- context [pre ++ ?v :: l] =>
        replace (pre ++ v :: l) with ((pre ++ [v]) ++ l)
          by (rewrite <- app_assoc; reflexivity);
        replace (S (length pre)) with (length (pre ++ [v]))
          by (rewrite length_app; cbn; lia);
        rewrite (IH (pre ++ [v]) l' Hl); rewrite <- app_assoc; reflexivity
    end.
Qed.

Lemma Forall2_length_eq {A B} (R : A -> B -> Prop) (l : list A) (l' : list B) :
  Forall2 R l l' -> length l = length l'.
Proof. induction 1; cbn; congruence. Qed.

(** The shape of a token list that parses, and of its message. *)
Lemma from_text_shape :
  forall (tokens : list string) (m : Message),
    from_text tokens = Ok m ->
    exists d rest,
      definitions_getitem (command m) = Ok d
      /\ tokens = value (command m) :: rest
      /\ length rest = arity d
      /\ length (args m) = arity d
      /\ match mapping d with
         | Some mp => Forall2 (fun t v => dict_get mp t = Some v) rest (args m)
         | None => args m = rest
         end.
Proof.
  intros tokens m H.
  destruct tokens as [|first rest]; [discriminate|].
  pose proof (from_text_Ok_value first rest m H) as Hfirst. subst first.
  destruct (definitions_total (command m)) as [d Hd].
  exists d, rest. split; [exact Hd|]. split; [reflexivity|].
  rewrite (from_text_known _ d rest Hd) in H.
  destruct (Nat.eqb_spec (length rest) (arity d)) as [E|E];
    cbn [negb] in H; [|rewrite load_self in H; discriminate].
  split; [exact E|].
  rewrite <- E, firstn_all in H.
  destruct (mapping d) as [mp|].
  - destruct (map_args (command m) mp (enumerate rest) rest) as [r|e] eqn:Hmap;
      cbn [rbind] in H; [|discriminate].
    destruct (map_args_sound (command m) mp rest [] r Hmap) as [codes [-> Hc]].
    injection H as <-. cbn [args app].
    split; [|exact Hc].
    rewrite <- E. symmetry. apply (Forall2_length_eq _ _ _ Hc).
  - injection H as <-. cbn [args]. split; [exact E | reflexivity].
Qed.

End ParsingMore.

(** X1.  A first token that is the value of no command makes [from_text]
    raise the [ValueError] of line 79, whatever follows it; the command loop
    catches it, logs the line when [DEBUG] is on, and goes on with the next
    line. *)
Theorem from_text_unknown_command :
  forall (first : string) (rest : list string),
    (forall c, value c <> first) ->
    from_text (first :: rest) = Raise (unknown_command first)
    /\ (forall mpv gopro line lines w s,
          split (strip line) " " = first :: rest ->
          process_line mpv gopro line w s
          = (Ok tt, debugged (skip_message (strip line) (unknown_command first)) s)
          /\ command_loop mpv gopro (line :: lines) w s
             = command_loop mpv gopro lines w
                 (debugged (skip_message (strip line) (unknown_command first)) s)).
Proof.
  intros first rest Hnone.
  assert (H : from_text (first :: rest) = Raise (unknown_command first)).
  { unfold from_text. rewrite (find_command_unknown first rest Hnone).
    reflexivity. }
  split; [exact H|].
  intros mpv gopro line lines w s Hsplit.
  assert (Hline : process_line mpv gopro line w s
                  = (Ok tt, debugged (skip_message (strip line)
                                        (unknown_command first)) s)).
  { unfold process_line. rewrite Hsplit, H.
    cbn [unknown_command isinstance_ValueError]. apply debug_print_run. }
  split; [exact Hline|].
  cbn [command_loop]. unfold bind at 1. rewrite Hline. reflexivity.
Qed.

Lemma from_text_unknown_command_example :
  from_text ["nonexistent_command"; "7"]
  = Raise (unknown_command "nonexistent_command").
Proof.
  apply (from_text_unknown_command "nonexistent_command" ["7"]).
  intros c. destruct c; discriminate.
Defined.

(** X2.  The invariant of a parsed message: when [from_text] returns a
    message, the first token is the value of its command, the tokens after
    it are as many as the arity of the command and as many as the arguments
    of the message, and the arguments are the tokens themselves when the
    command has no mapping and their codes under the mapping when it has
    one. *)
Theorem from_text_invariant :
  forall (tokens : list string) (m : Message),
    from_text tokens = Ok m ->
    exists d rest,
      definitions_getitem (command m) = Ok d
      /\ tokens = value (command m) :: rest
      /\ length rest = arity d
      /\ length (args m) = arity d
      /\ match mapping d with
         | Some mp => Forall2 (fun t v => dict_get mp t = Some v) rest (args m)
         | None => args m = rest
         end.
Proof. exact from_text_shape. Qed.

Lemma from_text_invariant_example :
  exists d rest,
    definitions_getitem VIDEO_RESOLUTION = Ok d
    /\ ["video_resolution"; "1440p"] = value VIDEO_RESOLUTION :: rest
    /\ length rest = arity d
    /\ length ["7"] = arity d
    /\ match mapping d with
       | Some mp => Forall2 (fun t v => dict_get mp t = Some v) rest ["7"]
       | None => ["7"] = rest
       end.
Proof.
  apply (from_text_invariant ["video_resolution"; "1440p"]
           {| command := VIDEO_RESOLUTION; args := ["7"] |}).
  reflexivity.
Defined.

(** X3.  [from_text] succeeds on every well-formed line: the value of a
    command followed by as many tokens as its arity gives the message of
    that command, with the tokens as arguments when the command has no
    mapping and with their codes when each token is a key of the mapping. *)
Theorem from_text_succeeds :
  forall (c : CommandEnum) (d : definition) (rest codes : list string),
    definitions_getitem c = Ok d ->
    length rest = arity d ->
    match mapping d with
    | Some mp => Forall2 (fun t v => dict_get mp t = Some v) rest codes
    | None => codes = rest
    end ->
    from_text (value c :: rest) = Ok {| command := c; args := codes |}.
Proof.
  intros c d rest codes Hd Hlen Hcodes.
  rewrite (from_text_known c d rest Hd).
  rewrite <- Hlen, Nat.eqb_refl, firstn_all. cbn [negb].
  destruct (mapping d) as [mp|].
  - unfold enumerate.
    pose proof (map_args_complete c mp rest [] codes Hcodes) as Hmap.
    cbn [length app] in Hmap. rewrite Hmap. reflexivity.
  - subst codes. reflexivity.
Qed.

Lemma from_text_succeeds_example :
  from_text ["default_boot_mode"; "photo"]
  = Ok {| command := DEFAULT_BOOT_MODE; args := ["1"] |}.
Proof.
  apply (from_text_succeeds DEFAULT_BOOT_MODE
           {| arity := 1; template := "/setting/53/{}";
              mapping := Some [("video", "0"); ("photo", "1");
                               ("multishot", "2")] |}
           ["photo"] ["1"]).
  - reflexivity.
  - reflexivity.
  - cbn. constructor; [reflexivity | constructor].
Defined.

(** ** Rendering and dispatch of parsed messages *)

Section DispatchMore.

Local Open Scope result_scope.

Variable gopro : GoPro.

(** Arguments after the last field are not read. *)
Lemma fill_surplus (pieces : list string) :
  forall a extra,
    length pieces = S (length a) ->
    fill pieces (a ++ extra) = fill pieces a.
Proof.
  induction pieces as [|p rest IH]; intros a extra Hlen; [reflexivity|].
  destruct rest as [|q rest]; [reflexivity|].
  destruct a as [|x a]; [cbn in Hlen; lia|].
  cbn [app].
  change (fill (p :: q :: rest) (x :: a ++ extra))
    with (p ++ x ++ fill (q :: rest) (a ++ extra))%string.
  change (fill (p :: q :: rest) (x :: a))
    with (p ++ x ++ fill (q :: rest) a)%string.
  rewrite IH by (cbn in Hlen |- *; lia). reflexivity.
Qed.

(** The URL of a message that has as many arguments as the arity. *)
Lemma build_url_arity (c : CommandEnum) (d : definition) (a : list string) :
  definitions_getitem c = Ok d ->
  (arity d <= length a)%nat ->
  _build_url {| command := c; args := a |} gopro
  = Ok ("http://" ++ ip_address gopro ++ "/gp/gpControl"
          ++ fill (split_fields (template d)) a)%string.
Proof.
  intros Hd Hlen.
  destruct (catalog_templates c d Hd) as [Ht [Hall [Hpieces _]]].
  apply (build_url_fill gopro c d _ a Hd Ht Hall). lia.
Qed.

(** A field without an argument. *)
Lemma build_url_missing_argument (c : CommandEnum) (d : definition) :
  definitions_getitem c = Ok d ->
  arity d = 1%nat ->
  _build_url {| command := c; args := [] |} gopro
  = Raise (IndexError "Replacement index out of range for positional args tuple").
Proof.
  intros Hd Har.
  destruct (catalog_templates c d Hd) as [Ht [Hall [_ Hshape]]].
  destruct (Hshape Har) as [p Hp]. rewrite Hp in Ht, Hall.
  cbn [forallb] in Hall. apply andb_prop in Hall. destruct Hall as [Hfree _].
  unfold _build_url. cbn [command args]. rewrite Hd. cbn [rbind].
  rewrite Ht. cbn [join_fields]. rewrite (format_literal p _ [] Hfree).
  reflexivity.
Qed.

Variable w : World.

(** The run of a plain command: lines 102-103 and 109. *)
Lemma send_to_plain_run (c : CommandEnum) (a : list string) (s : state) :
  plain c = true ->
  send_to {| command := c; args := a |} gopro w s
  = match _build_url {| command := c; args := a |} gopro with
    | Ok u =>
        (match http_get w (trace (debugged ("GET " ++ u) s)) u with
         | Ok r => Ok (RResponse r)
         | Raise e => Raise e
         end, log (HttpGet u) (debugged ("GET " ++ u) s))
    | Raise e => (Raise e, s)
    end.
Proof.
  intros Hplain. unfold plain in Hplain.
  apply andb_prop in Hplain. destruct Hplain as [Hplain Hstream].
  apply andb_prop in Hplain. destruct Hplain as [Hwake Hbattery].
  apply negb_true_iff in Hwake, Hbattery, Hstream.
  unfold send_to. cbn [send_to_rec command].
  rewrite Hwake, Hbattery, Hstream.
  unfold bind, lift.
  destruct (_build_url _ gopro) as [u|e]; [|reflexivity].
  rewrite debug_print_run. unfold requests_get, ret.
  destruct (http_get w _ u); reflexivity.
Qed.

(** The run of the battery query, whatever the response holds. *)
Lemma send_to_battery_run (a : list string) (s : state) :
  send_to {| command := GET_BATTERY_LEVEL; args := a |} gopro w s
  = (r <- http_get w (trace (debugged ("GET " ++ status_url gopro) s))
            (status_url gopro) ;;
     doc <- json_method r ;;
     inner <- json_getitem doc "status" ;;
     level <- json_getitem inner "2" ;;
     Ok (RJson level),
     log (HttpGet (status_url gopro))
       (debugged ("GET " ++ status_url gopro) s)).
Proof.
  rewrite send_to_battery_unfold. unfold bind at 1.
  unfold Message_GET_STATUS. rewrite send_to_status_run. cbv zeta.
  destruct (http_get w _ _) as [r|e]; [|reflexivity].
  unfold bind, lift, ret. cbn [reply_json rbind].
  destruct (json_method r) as [doc|e]; [|reflexivity]. cbn [rbind].
  destruct (json_getitem doc "status") as [inner|e]; [|reflexivity].
  cbn [rbind].
  destruct (json_getitem inner "2") as [level|e]; reflexivity.
Qed.

(** The round of the command loop for a line that parses: the reply is
    printed when it is true, and the media player is started after the
    streaming command. *)
Lemma process_line_parsed (mpv line : string) (m : Message) (s : state) :
  from_text (split (strip line) " ") = Ok m ->
  process_line mpv gopro line w s
  = match send_to m gopro w s with
    | (Ok reply, s1) =>
        let s2 := if truthy reply then log (Stdout reply) s1 else s1 in
        if CommandEnum_eqb (command m) STREAM then
          (match os_error w (trace s2) (SubprocessRun (player_argv mpv gopro)) with
           | Some x => Raise x
           | None => Ok tt
           end, log (SubprocessRun (player_argv mpv gopro)) s2)
        else (Ok tt, s2)
    | (Raise e, s1) => (Raise e, s1)
    end.
Proof.
  intros Hparse. unfold process_line. rewrite Hparse.
  unfold bind. destruct (send_to m gopro w s) as [[reply|e] s1]; [|reflexivity].
  cbv zeta.
  destruct (truthy reply); unfold emit, ret;
    destruct (CommandEnum_eqb (command m) STREAM); try reflexivity;
    unfold syscall;
    change (SubprocessRun _) with (SubprocessRun (player_argv mpv gopro));
    destruct (os_error w _ _); reflexivity.
Qed.

(** A parsed command ends with nothing but itself on its line. *)
Lemma from_text_bare (c : CommandEnum) (d : definition) :
  definitions_getitem c = Ok d -> arity d = 0%nat -> mapping d = None ->
  from_text [value c] = Ok {| command := c; args := [] |}.
Proof.
  intros Hd Har Hm. rewrite (from_text_known c d [] Hd), Har, Hm. reflexivity.
Qed.

End DispatchMore.

(** X4.  A message that [from_text] returns always renders: [_build_url]
    does not raise on it, and the URL is the base URL of the session
    followed by the template of the command with the arguments of the
    message in its fields. *)
Theorem build_url_of_parsed :
  forall (tokens : list string) (m : Message) (gopro : GoPro),
    from_text tokens = Ok m ->
    exists d,
      definitions_getitem (command m) = Ok d
      /\ _build_url m gopro
         = Ok ("http://" ++ ip_address gopro ++ "/gp/gpControl"
                 ++ fill (split_fields (template d)) (args m))%string.
Proof.
  intros tokens m gopro H.
  destruct (from_text_shape tokens m H) as [d [rest [Hd [_ [_ [Hargs _]]]]]].
  exists d. split; [exact Hd|].
  destruct m as [c a]. cbn [command args] in *.
  apply build_url_arity; [exact Hd | lia].
Qed.

Lemma build_url_of_parsed_example :
  exists d,
    definitions_getitem ZOOM = Ok d
    /\ _build_url {| command := ZOOM; args := ["50"] |} example_session
       = Ok ("http://" ++ "10.5.5.9" ++ "/gp/gpControl"
               ++ fill (split_fields (template d)) ["50"])%string.
Proof.
  apply (build_url_of_parsed ["zoom"; "50"]
           {| command := ZOOM; args := ["50"] |} example_session).
  reflexivity.
Defined.

(** X5.  [_build_url] on a message that was not parsed: a command with one
    field and no argument (such as [Message(CommandEnum.ZOOM)], whose default
    argument list is empty) raises the [IndexError] of [str.format], and
    arguments beyond the arity of the command change nothing. *)
Theorem build_url_argument_count :
  forall (gopro : GoPro) (c : CommandEnum) (d : definition),
    definitions_getitem c = Ok d ->
    (arity d = 1%nat ->
     _build_url {| command := c; args := [] |} gopro
     = Raise (IndexError
                "Replacement index out of range for positional args tuple"))
    /\ (forall a extra,
          length a = arity d ->
          _build_url {| command := c; args := a ++ extra |} gopro
          = _build_url {| command := c; args := a |} gopro).
Proof.
  intros gopro c d Hd. split.
  - intros Har. apply (build_url_missing_argument gopro c d Hd Har).
  - intros a extra Hlen.
    destruct (catalog_templates c d Hd) as [_ [_ [Hpieces _]]].
    rewrite (build_url_arity gopro c d (a ++ extra) Hd)
      by (rewrite length_app; lia).
    rewrite (build_url_arity gopro c d a Hd) by lia.
    rewrite fill_surplus by lia. reflexivity.
Qed.

Lemma build_url_argument_count_example :
  _build_url {| command := ZOOM; args := [] |} example_session
  = Raise (IndexError "Replacement index out of range for positional args tuple").
Proof.
  apply (proj1 (build_url_argument_count example_session ZOOM
                  {| arity := 1;
                     template := "/command/digital_zoom?range_pcnt={}";
                     mapping := None |} eq_refl)).
  reflexivity.
Defined.

(** X6.  Dispatching a command other than wake, battery level and stream
    makes one HTTP GET of the URL of the message and returns the response
    itself, whatever its status; an exception of the request is passed on,
    and when the URL cannot be rendered nothing is requested at all. *)
Theorem send_to_plain :
  forall (gopro : GoPro) (w : World) (c : CommandEnum) (a : list string)
         (s : state),
    plain c = true ->
    send_to {| command := c; args := a |} gopro w s
    = match _build_url {| command := c; args := a |} gopro with
      | Ok u =>
          (match http_get w (trace (debugged ("GET " ++ u) s)) u with
           | Ok r => Ok (RResponse r)
           | Raise e => Raise e
           end, log (HttpGet u) (debugged ("GET " ++ u) s))
      | Raise e => (Raise e, s)
      end.
Proof. intros gopro w c a s. apply send_to_plain_run. Qed.

Lemma send_to_plain_example :
  send_to {| command := RECORD_START; args := [] |} example_session
    (mock_endpoint (mock_response 500 "" (Raise (JSONDecodeError ""))))
    (initial true)
  = (Ok (RResponse (mock_response 500 "" (Raise (JSONDecodeError "")))),
     {| DEBUG := true;
        trace := [Stderr "GET http://10.5.5.9/gp/gpControl/command/shutter?p=1";
                  HttpGet "http://10.5.5.9/gp/gpControl/command/shutter?p=1"] |}).
Proof.
  rewrite (send_to_plain example_session
             (mock_endpoint (mock_response 500 "" (Raise (JSONDecodeError ""))))
             RECORD_START [] (initial true)); reflexivity.
Defined.

(** ** Rounds of the command loop *)

Section Rounds.

Local Open Scope result_scope.

Variable gopro : GoPro.
Variable w : World.

Lemma from_text_battery :
  from_text ["get_battery_level"]
  = Ok {| command := GET_BATTERY_LEVEL; args := [] |}.
Proof. reflexivity. Qed.

Lemma from_text_stream :
  from_text ["stream"] = Ok {| command := STREAM; args := [] |}.
Proof. reflexivity. Qed.

Lemma from_text_wake :
  from_text ["wake"] = Ok {| command := WAKE; args := [] |}.
Proof. reflexivity. Qed.

Lemma plain_not_stream (c : CommandEnum) :
  plain c = true -> CommandEnum_eqb c STREAM = false.
Proof.
  unfold plain. intros H. apply andb_prop in H. destruct H as [_ H].
  apply negb_true_iff in H. exact H.
Qed.

(** A round whose dispatch raises: the exception leaves the round, and the
    loop with it, whatever its class. *)
Lemma process_line_dispatch_raises (mpv line : string) (lines : list string)
    (m : Message) (s s1 : state) (e : exn) :
  from_text (split (strip line) " ") = Ok m ->
  send_to m gopro w s = (Raise e, s1) ->
  process_line mpv gopro line w s = (Raise e, s1)
  /\ command_loop mpv gopro (line :: lines) w s = (Raise e, s1).
Proof.
  intros Hparse Hsend.
  assert (H : process_line mpv gopro line w s = (Raise e, s1)).
  { rewrite (process_line_parsed gopro w mpv line m s Hparse), Hsend.
    reflexivity. }
  split; [exact H|].
  cbn [command_loop]. unfold bind at 1. rewrite H. reflexivity.
Qed.

End Rounds.

(** X7.  The battery query fails when the status response does not hold the
    field: an exception of [json()], of the lookup of the key status or of
    the lookup of the key 2 (a [KeyError] for a missing key, a [TypeError]
    for a value that is not an object) comes out of [send_to] after the one
    status request.  The command loop calls [send_to] outside its [try], so
    the exception ends the loop, also when it is a [ValueError]. *)
Theorem send_to_battery_level_fails :
  forall (gopro : GoPro) (w : World) (s : state) (r : Response) (e : exn)
         (mpv line : string) (lines : list string),
    (forall h, http_get w h (status_url gopro) = Ok r) ->
    rbind (json_method r)
      (fun doc => rbind (json_getitem doc "status")
         (fun inner => json_getitem inner "2")) = Raise e ->
    split (strip line) " " = ["get_battery_level"] ->
    let s1 := log (HttpGet (status_url gopro))
                (debugged ("GET " ++ status_url gopro) s) in
    send_to {| command := GET_BATTERY_LEVEL; args := [] |} gopro w s
    = (Raise e, s1)
    /\ process_line mpv gopro line w s = (Raise e, s1)
    /\ command_loop mpv gopro (line :: lines) w s = (Raise e, s1).
Proof.
  intros gopro w s r e mpv line lines Hget Hfield Hsplit s1.
  assert (Hsend : send_to {| command := GET_BATTERY_LEVEL; args := [] |} gopro w s
                  = (Raise e, s1)).
  { rewrite send_to_battery_run, Hget. cbn [rbind]. subst s1. f_equal.
    destruct (json_method r) as [doc|x]; cbn [rbind] in *; [|congruence].
    destruct (json_getitem doc "status") as [inner|x]; cbn [rbind] in *;
      [|congruence].
    destruct (json_getitem inner "2"); cbn [rbind]; [discriminate | congruence]. }
  split; [exact Hsend|].
  apply (process_line_dispatch_raises gopro w mpv line lines
           {| command := GET_BATTERY_LEVEL; args := [] |} s s1 e);
    [rewrite Hsplit; reflexivity | exact Hsend].
Qed.

Lemma send_to_battery_level_fails_example :
  command_loop "mpv" example_session ["get_battery_level"; "record_start"]
    (mock_endpoint (mock_response 200 "{}" (Ok (JObj [])))) (initial false)
  = (Raise (KeyError "status"),
     {| DEBUG := false;
        trace := [HttpGet "http://10.5.5.9/gp/gpControl/status"] |}).
Proof.
  apply (send_to_battery_level_fails example_session
           (mock_endpoint (mock_response 200 "{}" (Ok (JObj []))))
           (initial false) (mock_response 200 "{}" (Ok (JObj [])))
           (KeyError "status") "mpv" "get_battery_level" ["record_start"]).
  - intros h. reflexivity.
  - reflexivity.
  - reflexivity.
Defined.

(** X8.  The round of the command loop for a plain command (any but wake,
    battery level and stream): one HTTP GET of the URL of the parsed
    message; the response is printed when its status is outside [400, 600)
    and nothing is printed when it is inside, since a [Response] is true
    exactly when it is [ok]; the loop goes on in both cases. *)
Theorem process_line_plain :
  forall (mpv : string) (gopro : GoPro) (w : World) (line : string)
         (m : Message) (u : string) (r : Response) (s : state),
    from_text (split (strip line) " ") = Ok m ->
    plain (command m) = true ->
    _build_url m gopro = Ok u ->
    (forall h, http_get w h u = Ok r) ->
    process_line mpv gopro line w s
    = (Ok tt,
       if ok r
       then log (Stdout (RResponse r))
              (log (HttpGet u) (debugged ("GET " ++ u) s))
       else log (HttpGet u) (debugged ("GET " ++ u) s)).
Proof.
  intros mpv gopro w line m u r s Hparse Hplain Hurl Hget.
  rewrite (process_line_parsed gopro w mpv line m s Hparse).
  destruct m as [c a]. cbn [command] in *.
  rewrite (send_to_plain_run gopro w c a s Hplain), Hurl, Hget.
  cbv zeta. rewrite (plain_not_stream c Hplain).
  cbn [truthy]. fold (ok r). destruct (ok r); reflexivity.
Qed.

Lemma process_line_plain_example :
  process_line "mpv" example_session "power_off"
    (mock_endpoint (mock_response 404 "" (Raise (JSONDecodeError ""))))
    (initial false)
  = (Ok tt,
     {| DEBUG := false;
        trace := [HttpGet "http://10.5.5.9/gp/gpControl/command/system/sleep"] |}).
Proof.
  apply (process_line_plain "mpv" example_session
           (mock_endpoint (mock_response 404 "" (Raise (JSONDecodeError ""))))
           "power_off" {| command := POWER_OFF; args := [] |}
           "http://10.5.5.9/gp/gpControl/command/system/sleep"
           (mock_response 404 "" (Raise (JSONDecodeError ""))) (initial false)).
  - reflexivity.
  - reflexivity.
  - reflexivity.
  - intros h. reflexivity.
Defined.

(** X9.  The round of the command loop for the battery query prints the
    level unless it is zero: the reply is the number itself, and the test
    [if reply:] of line 150 is false for 0, so a battery level of 0 prints
    nothing. *)
Theorem process_line_battery_level :
  forall (mpv : string) (gopro : GoPro) (w : World) (line : string) (s : state)
         (r : Response) (doc inner : json) (z : Z),
    split (strip line) " " = ["get_battery_level"] ->
    (forall h, http_get w h (status_url gopro) = Ok r) ->
    json_method r = Ok doc ->
    json_getitem doc "status" = Ok inner ->
    json_getitem inner "2" = Ok (JNum z) ->
    process_line mpv gopro line w s
    = (Ok tt,
       if (z =? 0)%Z
       then log (HttpGet (status_url gopro))
              (debugged ("GET " ++ status_url gopro) s)
       else log (Stdout (RJson (JNum z)))
              (log (HttpGet (status_url gopro))
                 (debugged ("GET " ++ status_url gopro) s))).
Proof.
  intros mpv gopro w line s r doc inner z Hsplit Hget Hdoc Hinner Hlevel.
  rewrite (process_line_parsed gopro w mpv line
             {| command := GET_BATTERY_LEVEL; args := [] |} s)
    by (rewrite Hsplit; reflexivity).
  rewrite send_to_battery_run, Hget. cbn [rbind].
  rewrite Hdoc. cbn [rbind]. rewrite Hinner. cbn [rbind].
  rewrite Hlevel. cbn [rbind truthy command].
  change (CommandEnum_eqb GET_BATTERY_LEVEL STREAM) with false.
  cbv zeta. destruct (z =? 0)%Z; reflexivity.
Qed.

Lemma process_line_battery_level_zero :
  process_line "mpv" example_session "get_battery_level"
    (mock_endpoint
       (mock_response 200 ""
          (Ok (JObj [("status", JObj [("2", JNum 0)])]))))
    (initial false)
  = (Ok tt,
     {| DEBUG := false;
        trace := [HttpGet "http://10.5.5.9/gp/gpControl/status"] |}).
Proof.
  apply (process_line_battery_level "mpv" example_session
           (mock_endpoint
              (mock_response 200 ""
                 (Ok (JObj [("status", JObj [("2", JNum 0)])]))))
           "get_battery_level" (initial false)
           (mock_response 200 ""
              (Ok (JObj [("status", JObj [("2", JNum 0)])])))
           (JObj [("status", JObj [("2", JNum 0)])])
           (JObj [("2", JNum 0)]) 0%Z).
  - reflexivity.
  - intros h. reflexivity.
  - reflexivity.
  - reflexivity.
  - reflexivity.
Defined.

(** X10.  The round of the command loop for the streaming command: after
    the HTTP GET the reply, 1 or 0, is always printed (both strings are
    true), and the media player is started with the low-latency profile on
    the UDP address of the session whatever the reply is, also when the
    camera answered with an error status. *)
Theorem process_line_stream :
  forall (mpv : string) (gopro : GoPro) (w : World) (line : string) (s : state)
         (r : Response),
    split (strip line) " " = ["stream"] ->
    (forall h, http_get w h (stream_url gopro) = Ok r) ->
    let reply := RStr (if (status_code r =? 200)%Z then "1" else "0") in
    let s1 := log (Stdout reply)
                (log (HttpGet (stream_url gopro))
                   (debugged ("GET " ++ stream_url gopro) s)) in
    process_line mpv gopro line w s
    = (match os_error w (trace s1) (SubprocessRun (player_argv mpv gopro)) with
       | Some x => Raise x
       | None => Ok tt
       end, log (SubprocessRun (player_argv mpv gopro)) s1).
Proof.
  intros mpv gopro w line s r Hsplit Hget reply s1.
  rewrite (process_line_parsed gopro w mpv line
             {| command := STREAM; args := [] |} s)
    by (rewrite Hsplit; reflexivity).
  rewrite send_to_stream_run. cbv zeta. rewrite Hget.
  cbn [command]. change (CommandEnum_eqb STREAM STREAM) with true.
  subst s1 reply. destruct (status_code r =? 200)%Z; reflexivity.
Qed.

Lemma process_line_stream_example :
  process_line "mpv" example_session "stream"
    (mock_endpoint (mock_response 500 "" (Raise (JSONDecodeError ""))))
    (initial false)
  = (Ok tt,
     {| DEBUG := false;
        trace := [HttpGet
                    "http://10.5.5.9/gp/gpControl/execute?p1=gpStream&a1=proto_v2&c1=restart";
                  Stdout (RStr "0");
                  SubprocessRun ["mpv"; "--profile=low-latency";
                                 "udp://10.5.5.9:8554"]] |}).
Proof.
  apply (process_line_stream "mpv" example_session
           (mock_endpoint (mock_response 500 "" (Raise (JSONDecodeError ""))))
           "stream" (initial false)
           (mock_response 500 "" (Raise (JSONDecodeError "")))).
  - reflexivity.
  - intros h. reflexivity.
Defined.

(** ** What the computations add to the trace *)

Section Traces.

Lemma adds_refl (P : event -> Prop) (s : state) : adds P s s.
Proof. exists []. split; [symmetry; apply app_nil_r | constructor]. Qed.

Lemma adds_log (P : event -> Prop) (s s' : state) (e : event) :
  adds P s s' -> P e -> adds P s (log e s').
Proof.
  intros [evs [Ht Hall]] He. exists (evs ++ [e]). split.
  - cbn [log trace]. rewrite Ht. symmetry. apply app_assoc.
  - apply Forall_app. split; [exact Hall | repeat constructor; exact He].
Qed.

Lemma adds_trans (P : event -> Prop) (s1 s2 s3 : state) :
  adds P s1 s2 -> adds P s2 s3 -> adds P s1 s3.
Proof.
  intros [e1 [H1 A1]] [e2 [H2 A2]]. exists (e1 ++ e2). split.
  - rewrite H2, H1. symmetry. apply app_assoc.
  - apply Forall_app. split; assumption.
Qed.

Context {P : bool -> event -> Prop}.

Lemma confined_ret {A} (a : A) : confined P (ret a).
Proof. intros w s. split; [reflexivity | apply adds_refl]. Qed.

Lemma confined_raise {A} (e : exn) : confined P (@raise A e).
Proof. intros w s. split; [reflexivity | apply adds_refl]. Qed.

Lemma confined_lift {A} (r : Result A) : confined P (lift r).
Proof. intros w s. split; [reflexivity | apply adds_refl]. Qed.

Lemma confined_bind {A B} (m : M A) (k : A -> M B) :
  confined P m -> (forall a, confined P (k a)) -> confined P (bind m k).
Proof.
  intros Hm Hk w s. unfold bind.
  destruct (Hm w s) as [Hd Ha].
  destruct (m w s) as [[a|e] s1]; cbn [snd] in *; [|split; assumption].
  destruct (Hk a w s1) as [Hd' Ha']. rewrite Hd in Ha'.
  split; [congruence | eapply adds_trans; eassumption].
Qed.

Lemma confined_emit (e : event) : (forall b, P b e) -> confined P (emit e).
Proof.
  intros He w s. split; [reflexivity|].
  apply adds_log; [apply adds_refl | apply He].
Qed.

Lemma confined_syscall (e : event) : (forall b, P b e) -> confined P (syscall e).
Proof.
  intros He w s. unfold syscall.
  destruct (os_error w (trace s) e); cbn [snd];
    (split; [reflexivity | apply adds_log; [apply adds_refl | apply He]]).
Qed.

Lemma confined_requests_get (u : string) :
  (forall b, P b (HttpGet u)) -> confined P (requests_get u).
Proof.
  intros He w s. split; [reflexivity|].
  apply adds_log; [apply adds_refl | apply He].
Qed.

Lemma confined_debug_print (message : string) :
  P true (Stderr message) -> confined P (debug_print message).
Proof.
  intros He w s. rewrite debug_print_run. cbn [snd]. unfold debugged.
  destruct (DEBUG s) eqn:E.
  - split; [exact E | apply adds_log; [apply adds_refl | exact He]].
  - split; [exact E | apply adds_refl].
Qed.

End Traces.

Ltac confine_step :=
  lazymatch goal with
  | |- confined _ (bind _ _) => apply confined_bind; [|intros ?]
  | |- confined _ (ret _) => apply confined_ret
  | |- confined _ (raise _) => apply confined_raise
  | |- confined _ (lift _) => apply confined_lift
  | |- confined _ (debug_print _) => apply confined_debug_print; discriminate
  | |- confined _ (emit _) => apply confined_emit; intros ? ?; reflexivity
  | |- confined _ (syscall _) => apply confined_syscall; intros ? ?; reflexivity
  | |- confined _ (requests_get _) =>
      apply confined_requests_get; intros ? ?; reflexivity
  end.

Ltac confine := repeat confine_step.

Section StderrOnlyInDebug.

Lemma send_wake_on_lan_confined (gopro : GoPro) :
  confined stderr_only_in_debug (send_wake_on_lan gopro).
Proof.
  unfold send_wake_on_lan, socket_socket, setsockopt_broadcast, sendto.
  confine.
Qed.

Lemma send_to_rec_confined (gopro : GoPro) (depth : nat) :
  forall self, confined stderr_only_in_debug (send_to_rec depth self gopro).
Proof.
  induction depth as [|depth IH]; intros self; cbn [send_to_rec];
    destruct (CommandEnum_eqb (command self) WAKE);
    try (confine; apply send_wake_on_lan_confined);
    destruct (CommandEnum_eqb (command self) GET_BATTERY_LEVEL);
    try (confine; apply IH);
    confine;
    destruct (CommandEnum_eqb (command self) STREAM);
    try destruct (status_code _ =? 200)%Z; confine.
Qed.

Lemma process_line_confined (mpv : string) (gopro : GoPro) (line : string) :
  confined stderr_only_in_debug (process_line mpv gopro line).
Proof.
  unfold process_line.
  destruct (from_text _) as [m|e].
  - apply confined_bind; [apply send_to_rec_confined|]. intros reply.
    apply confined_bind; [destruct (truthy reply); confine|]. intros _.
    destruct (CommandEnum_eqb (command m) STREAM); confine.
  - destruct (isinstance_ValueError e); confine.
Qed.

Lemma command_loop_confined (mpv : string) (gopro : GoPro) (lines : list string) :
  confined stderr_only_in_debug (command_loop mpv gopro lines).
Proof.
  induction lines as [|line lines IH]; cbn [command_loop]; [confine|].
  apply confined_bind; [apply process_line_confined | intros _; exact IH].
Qed.

End StderrOnlyInDebug.

(** X11.  The command loop never changes [DEBUG], and while [DEBUG] is off
    none of its statements prints on standard error, whatever the lines are
    and whatever the camera and the system answer: [debug_print] is the only
    statement of the loop that prints there, and it is silent then.  The
    statement is about the calls the loop makes: what the media player
    writes on the stream it inherits, and the traceback that the interpreter
    prints once an exception has left the loop, are not calls of the loop. *)
Theorem command_loop_debug_off :
  forall (mpv : string) (gopro : GoPro) (lines : list string) (w : World)
         (s : state),
    DEBUG (snd (command_loop mpv gopro lines w s)) = DEBUG s
    /\ (DEBUG s = false ->
        adds (fun e => is_Stderr e = false) s
          (snd (command_loop mpv gopro lines w s))).
Proof.
  intros mpv gopro lines w s.
  destruct (command_loop_confined mpv gopro lines w s) as [Hd [evs [Ht Hall]]].
  split; [exact Hd|].
  intros Hoff. exists evs. split; [exact Ht|].
  eapply Forall_impl; [|exact Hall].
  intros e He. exact (He Hoff).
Qed.

Lemma command_loop_debug_off_example :
  adds (fun e => is_Stderr e = false) (initial false)
    (snd (command_loop "mpv" example_session
            ["bogus"; "record_start"; "zoom"; "wake"]
            unreachable_network (initial false))).
Proof.
  apply (command_loop_debug_off "mpv" example_session
           ["bogus"; "record_start"; "zoom"; "wake"] unreachable_network
           (initial false)).
  reflexivity.
Defined.

(** ** The two UDP senders in any world *)

Section Senders.

Local Open Scope result_scope.

Variable gopro : GoPro.
Variable w : World.

(** One round of the keepalive loop adds keepalive events only. *)
Lemma keepalive_tick_adds (s : state) :
  adds (keepalive_event gopro) s (snd (keepalive_tick gopro w s)).
Proof.
  unfold keepalive_tick, socket_socket, sendto, time_sleep, syscall, raise,
    ret, bind.
  destruct (os_error w (trace s) NewSocket); cbn [snd];
    [apply adds_log; [apply adds_refl | left; reflexivity]|].
  destruct (os_error w (trace (log NewSocket s)) _); cbn [snd];
    [repeat (apply adds_log; [|unfold keepalive_event; tauto]);
     apply adds_refl|].
  destruct (2 ^ 63 * 1000 <? Z.abs (keepalive_period gopro) * 10 ^ 9)%Z;
    [|destruct (keepalive_period gopro <? 0)%Z;
      [|destruct (os_error w _ (Sleep _ _))]];
    cbn [snd];
    repeat (apply adds_log; [|unfold keepalive_event; tauto]);
    apply adds_refl.
Qed.

Lemma keepalive_adds (n : nat) :
  forall s, adds (keepalive_event gopro) s (snd (keepalive n gopro w s)).
Proof.
  induction n as [|n IH]; intros s; [apply adds_refl|].
  cbn [keepalive]. unfold bind.
  pose proof (keepalive_tick_adds s) as Htick.
  destruct (keepalive_tick gopro w s) as [[u|e] s1]; cbn [snd] in *;
    [|exact Htick].
  eapply adds_trans; [exact Htick | apply IH].
Qed.

(** The wake sender adds wake events only. *)
Lemma send_wake_on_lan_adds (s : state) (payload : list Z) :
  fromhex ("FFFFFFFFFFFF" ++ str_mul (mac_address gopro) 16) = Ok payload ->
  adds (wake_event gopro payload) s (snd (send_wake_on_lan gopro w s)).
Proof.
  intros Hpayload.
  unfold send_wake_on_lan, socket_socket, setsockopt_broadcast, sendto,
    syscall, lift, ret, bind.
  rewrite Hpayload.
  destruct (os_error w (trace s) NewSocket); cbn [snd];
    [apply adds_log; [apply adds_refl | left; reflexivity]|].
  destruct (os_error w (trace (log NewSocket s)) (SetBroadcast true)); cbn [snd];
    [repeat (apply adds_log; [|unfold wake_event; tauto]); apply adds_refl|].
  destruct (os_error w _ _); cbn [snd];
    repeat (apply adds_log; [|unfold wake_event; tauto]); apply adds_refl.
Qed.

(** The wake sender when the address does not decode. *)
Lemma send_wake_on_lan_fromhex_raises (s : state) (e : exn) :
  fromhex ("FFFFFFFFFFFF" ++ str_mul (mac_address gopro) 16) = Raise e ->
  send_wake_on_lan gopro w s = (Raise e, s).
Proof.
  intros H. unfold send_wake_on_lan, lift, bind. rewrite H. reflexivity.
Qed.

End Senders.

Section HexMore.

Local Open Scope result_scope.

Lemma has_bad_char_app (a b : string) :
  has_bad_char (a ++ b) = has_bad_char a || has_bad_char b.
Proof.
  induction a as [|c a IH]; [reflexivity|].
  cbn [String.append has_bad_char]. rewrite IH. apply orb_assoc.
Qed.

Lemma has_bad_char_str_mul (s : string) (n : nat) :
  has_bad_char s = true -> has_bad_char (str_mul s (S n)) = true.
Proof.
  intros H. cbn [str_mul]. rewrite has_bad_char_app, H. reflexivity.
Qed.

(** A string with a character that is neither a digit nor white space does
    not decode. *)
Lemma fromhex_bad_char (n : nat) :
  forall s, (String.length s <= n)%nat -> has_bad_char s = true ->
    fromhex s = Raise (ValueError "non-hexadecimal number found in fromhex() arg").
Proof.
  induction n as [|n IH]; intros s Hlen Hbad.
  - destruct s; [discriminate | cbn in Hlen; lia].
  - destruct s as [|c rest]; [discriminate|].
    cbn [String.length] in Hlen. cbn [has_bad_char] in Hbad. cbn [fromhex].
    destruct (is_ascii_space c) eqn:Hspace.
    + cbn [negb andb orb] in Hbad. apply IH; [lia | exact Hbad].
    + destruct (hex_digit c) as [top|] eqn:Hc.
      * cbn [negb andb orb] in Hbad.
        destruct rest as [|d rest']; [discriminate|].
        destruct (hex_digit d) as [bot|] eqn:Hd; [|reflexivity].
        cbn [has_bad_char] in Hbad. rewrite Hd in Hbad.
        rewrite andb_false_r in Hbad. cbn [orb] in Hbad.
        rewrite (IH rest'); [reflexivity | cbn in Hlen; lia | exact Hbad].
      * destruct rest; reflexivity.
Qed.

Lemma all_hex_app (a b : string) :
  all_hex (a ++ b) = all_hex a && all_hex b.
Proof.
  induction a as [|c a IH]; [reflexivity|].
  cbn [String.append all_hex]. destruct (hex_digit c); [exact IH | reflexivity].
Qed.

Lemma all_hex_str_mul (s : string) (n : nat) :
  all_hex s = true -> all_hex (str_mul s n) = true.
Proof.
  intros H. induction n as [|n IH]; [reflexivity|].
  cbn [str_mul]. rewrite all_hex_app, H, IH. reflexivity.
Qed.

Lemma length_append (a b : string) :
  String.length (a ++ b) = (String.length a + String.length b)%nat.
Proof. induction a as [|c a IH]; cbn; [reflexivity | rewrite IH; reflexivity]. Qed.

Lemma length_str_mul (s : string) (n : nat) :
  String.length (str_mul s n) = (n * String.length s)%nat.
Proof.
  induction n as [|n IH]; [reflexivity|].
  cbn [str_mul]. rewrite length_append, IH. reflexivity.
Qed.

(** The payload of line 168 for an address of hexadecimal digits, of any
    length. *)
Lemma fromhex_hex_message_any (mac : string) :
  all_hex mac = true ->
  exists payload,
    fromhex ("FFFFFFFFFFFF" ++ str_mul mac 16) = Ok payload
    /\ length payload = (6 + 8 * String.length mac)%nat
    /\ Forall is_byte payload.
Proof.
  intros Hhex.
  apply fromhex_all_hex.
  - rewrite length_append, length_str_mul. cbn [String.length]. lia.
  - rewrite all_hex_app, (all_hex_str_mul mac 16 Hhex). reflexivity.
Qed.

End HexMore.

(** X12.  Whatever the world does and however long the loop is observed,
    the keepalive loop adds nothing to the trace but its own three events:
    a new socket, the fixed payload sent without the broadcast option to
    port 8554 of the session, and the sleep of the configured period.  It
    never makes an HTTP request and never writes to an output stream. *)
Theorem keepalive_only_keepalive_events :
  forall (n : nat) (gopro : GoPro) (w : World) (s : state),
    adds (keepalive_event gopro) s (snd (keepalive n gopro w s)).
Proof. intros n gopro w s. apply keepalive_adds. Qed.

(** X13.  Whatever the world does, the wake sender adds nothing to the
    trace but a new socket, the setting of its broadcast option and the
    decoded payload sent with the broadcast option on to port 9 of the
    session. *)
Theorem send_wake_on_lan_only_wake_events :
  forall (gopro : GoPro) (w : World) (s : state) (payload : list Z),
    fromhex ("FFFFFFFFFFFF" ++ str_mul (mac_address gopro) 16) = Ok payload ->
    adds (wake_event gopro payload) s (snd (send_wake_on_lan gopro w s)).
Proof. intros gopro w s payload. apply send_wake_on_lan_adds. Qed.

Lemma send_wake_on_lan_only_wake_events_example :
  adds (wake_event example_session
          (magic_packet [170; 187; 204; 221; 238; 255]%Z))
    (initial false)
    (snd (send_wake_on_lan example_session unreachable_network (initial false))).
Proof.
  apply (send_wake_on_lan_only_wake_events example_session unreachable_network
           (initial false)).
  reflexivity.
Defined.

(** X14.  A MAC address with a character that is neither a hexadecimal
    digit nor ASCII white space (the usual notation with colons, say) makes
    the wake sender raise the [ValueError] of [bytes.fromhex] before any
    socket exists: nothing is sent, in any world. *)
Theorem send_wake_on_lan_bad_mac :
  forall (gopro : GoPro) (w : World) (s : state),
    has_bad_char (mac_address gopro) = true ->
    send_wake_on_lan gopro w s
    = (Raise (ValueError "non-hexadecimal number found in fromhex() arg"), s).
Proof.
  intros gopro w s Hbad.
  apply send_wake_on_lan_fromhex_raises.
  apply (fromhex_bad_char _ _ (le_n _)).
  rewrite has_bad_char_app, (has_bad_char_str_mul _ 15 Hbad).
  apply orb_true_r.
Qed.

Lemma send_wake_on_lan_bad_mac_example :
  send_wake_on_lan
    {| ap_ssid := ""; ap_password := ""; ip_address := "10.5.5.9";
       mac_address := "AA:BB:CC:DD:EE:FF"; keepalive_period := 2500 |}
    (mock_endpoint (mock_response 200 "" (Ok status_87))) (initial false)
  = (Raise (ValueError "non-hexadecimal number found in fromhex() arg"),
     initial false).
Proof.
  apply (send_wake_on_lan_bad_mac
           {| ap_ssid := ""; ap_password := ""; ip_address := "10.5.5.9";
              mac_address := "AA:BB:CC:DD:EE:FF"; keepalive_period := 2500 |}
           (mock_endpoint (mock_response 200 "" (Ok status_87)))
           (initial false)).
  reflexivity.
Defined.

(** X15.  The wake sender does not check the length of the MAC address: for
    an address of hexadecimal digits of any length the payload decodes, its
    length is 6 plus 8 times the number of digits (sixteen copies always make
    whole bytes), and in a world without failures it is sent like the magic
    packet.  Only for twelve digits is it the 102-byte packet. *)
Theorem send_wake_on_lan_any_length :
  forall (gopro : GoPro),
    all_hex (mac_address gopro) = true ->
    exists payload,
      fromhex ("FFFFFFFFFFFF" ++ str_mul (mac_address gopro) 16) = Ok payload
      /\ length payload = (6 + 8 * String.length (mac_address gopro))%nat
      /\ Forall is_byte payload
      /\ forall (w : World) (s : state),
           reliable w ->
           send_wake_on_lan gopro w s
           = (Ok tt,
              {| DEBUG := DEBUG s;
                 trace := trace s
                   ++ [NewSocket; SetBroadcast true;
                       SendTo {| so_broadcast := true |} payload
                         (ip_address gopro) 9] |}).
Proof.
  intros gopro Hhex.
  destruct (fromhex_hex_message_any (mac_address gopro) Hhex)
    as [payload [Hpayload [Hlen Hbytes]]].
  exists payload. repeat split; try assumption.
  intros w s Hw. apply send_wake_on_lan_run; assumption.
Qed.

Lemma send_wake_on_lan_any_length_example :
  exists payload,
    fromhex ("FFFFFFFFFFFF" ++ str_mul "ABC" 16) = Ok payload
    /\ length payload = (6 + 8 * 3)%nat
    /\ Forall is_byte payload
    /\ forall (w : World) (s : state),
         reliable w ->
         send_wake_on_lan
           {| ap_ssid := ""; ap_password := ""; ip_address := "10.5.5.9";
              mac_address := "ABC"; keepalive_period := 2500 |} w s
         = (Ok tt,
            {| DEBUG := DEBUG s;
               trace := trace s
                 ++ [NewSocket; SetBroadcast true;
                     SendTo {| so_broadcast := true |} payload "10.5.5.9" 9] |}).
Proof.
  apply (send_wake_on_lan_any_length
           {| ap_ssid := ""; ap_password := ""; ip_address := "10.5.5.9";
              mac_address := "ABC"; keepalive_period := 2500 |}).
  reflexivity.
Defined.

(** X16.  With a period that [time.sleep] refuses the loop sends its payload
    once and ends, when the socket and the send succeed: for a negative
    period down to -9223372036854 milliseconds the sleep raises [ValueError],
    and for a period beyond 9223372036854 milliseconds in either direction,
    whose nanoseconds do not fit 64 bits, it raises [OverflowError]; both
    leave the loop after the first send and before any second round. *)
Theorem keepalive_negative_period :
  forall (gopro : GoPro) (w : World) (n : nat) (s : state),
    reliable w ->
    ((- max_sleep_ms <= keepalive_period gopro < 0)%Z ->
     keepalive (S n) gopro w s
     = (Raise (ValueError "sleep length must be non-negative"),
        {| DEBUG := DEBUG s;
           trace := trace s
             ++ [NewSocket;
                 SendTo {| so_broadcast := false |} keepalive_payload
                   (ip_address gopro) udp_port] |}))
    /\ ((max_sleep_ms < Z.abs (keepalive_period gopro))%Z ->
        keepalive (S n) gopro w s
        = (Raise (OverflowError "timestamp too large to convert to C _PyTime_t"),
           {| DEBUG := DEBUG s;
              trace := trace s
                ++ [NewSocket;
                    SendTo {| so_broadcast := false |} keepalive_payload
                      (ip_address gopro) udp_port] |})).
Proof.
  intros gopro w n s Hw. split; intros Hperiod; apply keepalive_raise;
    rewrite (keepalive_tick_sent gopro w s (Hw _ _) (Hw _ _)).
  - apply time_sleep_negative. exact Hperiod.
  - apply time_sleep_overflow. exact Hperiod.
Qed.

Lemma keepalive_negative_period_example :
  keepalive 5
    {| ap_ssid := ""; ap_password := ""; ip_address := "10.5.5.9";
       mac_address := "AABBCCDDEEFF"; keepalive_period := -1 |}
    (mock_endpoint (mock_response 200 "" (Ok status_87))) (initial false)
  = (Raise (ValueError "sleep length must be non-negative"),
     {| DEBUG := false;
        trace := [NewSocket;
                  SendTo {| so_broadcast := false |} keepalive_payload
                    "10.5.5.9" 8554] |}).
Proof.
  apply (proj1 (keepalive_negative_period
                  {| ap_ssid := ""; ap_password := ""; ip_address := "10.5.5.9";
                     mac_address := "AABBCCDDEEFF"; keepalive_period := -1 |}
                  (mock_endpoint (mock_response 200 "" (Ok status_87))) 4
                  (initial false) (fun h e => eq_refl))).
  cbn. unfold max_sleep_ms. lia.
Defined.

(** ** The variant GoPro.py: parsing and the two catalogs *)

Section Variant.

Local Open Scope result_scope.

(** The loop of lines 63-65 of GoPro.py finds every member but [WAKE],
    which has no entry. *)
Lemma variant_find_command_value (c : GoProPy.CommandEnum) (rest : list string) :
  GoProPy.find_command GoProPy.definitions (GoProPy.value c :: rest) None
  = Ok (if GoProPy.CommandEnum_eqb c GoProPy.WAKE then None else Some c).
Proof. destruct c; reflexivity. Qed.

Lemma variant_find_command_sound
    (items : list (GoProPy.CommandEnum * definition)) :
  forall first rest acc r,
    GoProPy.find_command items (first :: rest) acc = Ok r ->
    r = acc \/ exists c, r = Some c /\ GoProPy.value c = first.
Proof.
  induction items as [|[com d] items IH]; intros first rest acc r H.
  - cbn in H. injection H as <-. left. reflexivity.
  - cbn [GoProPy.find_command getitem rbind] in H.
    destruct (String.eqb_spec (GoProPy.value com) first) as [E|E].
    + destruct (IH _ _ _ _ H) as [->|Hc]; [|right; exact Hc].
      right. exists com. split; [reflexivity | exact E].
    + apply (IH _ _ _ _ H).
Qed.

(** What [Message.__init__] does once the first token is the value of a
    member with an entry. *)
Lemma variant_init_known (c : GoProPy.CommandEnum) (d : definition)
    (rest : list string) :
  GoProPy.definitions_getitem c = Ok d ->
  GoProPy.Message_init (GoProPy.value c :: rest) =
    if negb (length rest =? arity d)%nat then Raise no_kind
    else
      match mapping d with
      | Some mp =>
          args' <- GoProPy.map_args mp (enumerate (firstn (arity d) rest))
                     (firstn (arity d) rest) ;;
          Ok {| GoProPy.command := c; GoProPy.args := args' |}
      | None => Ok {| GoProPy.command := c;
                      GoProPy.args := firstn (arity d) rest |}
      end.
Proof.
  intros Hd. unfold GoProPy.Message_init.
  rewrite variant_find_command_value.
  destruct c; try (vm_compute in Hd; discriminate);
    cbn [GoProPy.CommandEnum_eqb GoProPy.CommandEnum_eq_dec rbind];
    change (GoProPy.CommandEnum_eqb _ GoProPy.WAKE) with false;
    cbv iota; cbn [rbind]; rewrite Hd; cbn [rbind];
    unfold slice_from, slice; cbn [skipn length];
    replace (arity d + 1 - 1)%nat with (arity d) by lia;
    reflexivity.
Qed.

Lemma variant_map_args_sound (mp : dict string) (l : list string) :
  forall pre r,
    GoProPy.map_args mp (enumerate_from (length pre) l) (pre ++ l) = Ok r ->
    exists codes,
      r = pre ++ codes
      /\ Forall2 (fun t v => dict_get mp t = Some v) l codes.
Proof.
  induction l as [|x l IH]; intros pre r H.
  - cbn in H. injection H as <-. exists []. split; [reflexivity | constructor].
  - cbn [enumerate_from GoProPy.map_args] in H.
    unfold dict_mem, dict_getitem in H.
    destruct (dict_get mp x) as [v|] eqn:Hx; cbn [negb rbind] in H.
    + rewrite setitem_middle in H. cbn [rbind] in H.
      replace (pre ++ v :: l) with ((pre ++ [v]) ++ l) in H
        by (rewrite <- app_assoc; reflexivity).
      replace (S (length pre)) with (length (pre ++ [v])) in H
        by (rewrite length_app; cbn; lia).
      destruct (IH _ _ H) as [codes [-> Hcodes]].
      exists (v :: codes). split.
      * rewrite <- app_assoc. reflexivity.
      * constructor; assumption.
    + discriminate.
Qed.

(** The shape of a token list that GoPro.py parses, and of its message. *)
Lemma variant_init_shape (tokens : list string) (m : GoProPy.Message) :
  GoProPy.Message_init tokens = Ok m ->
  exists d rest,
    GoProPy.definitions_getitem (GoProPy.command m) = Ok d
    /\ tokens = GoProPy.value (GoProPy.command m) :: rest
    /\ length rest = arity d
    /\ match mapping d with
       | Some mp =>
           Forall2 (fun t v => dict_get mp t = Some v) rest (GoProPy.args m)
       | None => GoProPy.args m = rest
       end.
Proof.
  intros H. destruct tokens as [|first rest]; [discriminate|].
  destruct (GoProPy.find_command GoProPy.definitions (first :: rest) None)
    as [found|e] eqn:Hf;
    [|unfold GoProPy.Message_init in H; rewrite Hf in H; discriminate].
  destruct (variant_find_command_sound _ _ _ _ _ Hf) as [->|[c [-> Hc]]];
    [unfold GoProPy.Message_init in H; rewrite Hf in H; discriminate|].
  subst first.
  destruct (GoProPy.definitions_getitem c) as [d|e] eqn:Hd.
  - rewrite (variant_init_known c d rest Hd) in H.
    destruct (Nat.eqb_spec (length rest) (arity d)) as [E|E];
      cbn [negb] in H; [|discriminate].
    rewrite <- E, firstn_all in H.
    destruct (mapping d) as [mp|] eqn:Hmp.
    + destruct (GoProPy.map_args mp (enumerate rest) rest) as [r|e] eqn:Hmap;
        cbn [rbind] in H; [|discriminate].
      destruct (variant_map_args_sound mp rest [] r Hmap) as [codes [-> Hcodes]].
      injection H as <-. cbn [GoProPy.command GoProPy.args app].
      exists d, rest. rewrite Hmp. repeat split; assumption.
    + injection H as <-. cbn [GoProPy.command GoProPy.args].
      exists d, rest. rewrite Hmp. repeat split; assumption.
  - unfold GoProPy.Message_init in H. rewrite Hf in H. cbn [rbind] in H.
    rewrite Hd in H. discriminate.
Qed.

(** A command name of both scripts has the same arity and mapping in both,
    and its template in gpc.py is the one of GoPro.py after a slash. *)
Lemma catalogs_agree (c : CommandEnum) (c' : GoProPy.CommandEnum)
    (d d' : definition) :
  value c = GoProPy.value c' ->
  definitions_getitem c = Ok d ->
  GoProPy.definitions_getitem c' = Ok d' ->
  template d = String "/" (template d')
  /\ arity d = arity d' /\ mapping d = mapping d'.
Proof.
  intros Hv Hd Hd'.
  destruct c, c'; try discriminate Hv;
    vm_compute in Hd, Hd'; try discriminate Hd';
    injection Hd as <-; injection Hd' as <-; repeat split.
Qed.

Lemma Forall2_functional {A B} (R : A -> B -> Prop) (l : list A) :
  (forall a b b', R a b -> R a b' -> b = b') ->
  forall l1 l2, Forall2 R l l1 -> Forall2 R l l2 -> l1 = l2.
Proof.
  intros Hfun. induction l as [|a l IH]; intros l1 l2 H1 H2;
    inversion H1; inversion H2; subst; [reflexivity|].
  f_equal; [eapply Hfun; eassumption | apply IH; assumption].
Qed.

(** The base URL of GoPro.py followed by a path. *)
Lemma variant_url (ip path : string) :
  (("http://" ++ ip ++ "/gp/gpControl/") ++ path)%string
  = ("http://" ++ ip ++ "/gp/gpControl" ++ String "/" path)%string.
Proof.
  cbn [String.append]. do 7 f_equal.
  rewrite append_assoc. reflexivity.
Qed.

End Variant.

Section VariantRuns.

Local Open Scope result_scope.

(** The run of [send_to] of GoPro.py. *)
Lemma variant_send_to_run (m : GoProPy.Message) (gopro : GoProPy.GoPro)
    (w : World) (s : state) :
  GoProPy.send_to m gopro w s
  = match GoProPy._build_url m gopro with
    | Ok u =>
        (match http_get w (trace (debugged ("GET " ++ u) s)) u with
         | Ok _ => Ok tt
         | Raise e => Raise e
         end, log (HttpGet u) (debugged ("GET " ++ u) s))
    | Raise e => (Raise e, s)
    end.
Proof.
  unfold GoProPy.send_to, bind, lift.
  destruct (GoProPy._build_url m gopro) as [u|e]; [|reflexivity].
  rewrite debug_print_run. unfold requests_get, ret.
  destruct (http_get w _ u); reflexivity.
Qed.

(** A round of the loop of GoPro.py whose constructor raises an exception
    that is not a [ValueError]. *)
Lemma variant_loop_raises (gopro : GoProPy.GoPro) (line : string)
    (lines : list string) (w : World) (s : state) (e : exn) :
  GoProPy.Message_init (split (strip line) " ") = Raise e ->
  isinstance_ValueError e = false ->
  GoProPy.command_loop gopro (line :: lines) w s = (Raise e, s).
Proof.
  intros Hinit Hclass. cbn [GoProPy.command_loop]. unfold bind at 1.
  unfold GoProPy.process_line. rewrite Hinit, Hclass. reflexivity.
Qed.

(** A command name of both scripts is a plain command of gpc.py. *)
Lemma shared_is_plain (c : CommandEnum) (c' : GoProPy.CommandEnum)
    (d' : definition) :
  value c = GoProPy.value c' ->
  GoProPy.definitions_getitem c' = Ok d' ->
  plain c = true.
Proof.
  intros Hv Hd'.
  destruct c, c'; try discriminate Hv; try reflexivity;
    vm_compute in Hd'; discriminate Hd'.
Qed.

(** The two scripts render a line that both parse to the same URL. *)
Lemma variant_same_url (tokens : list string) (m : Message)
    (m' : GoProPy.Message) (gopro : GoPro) (mac : string) (period : Z) :
  from_text tokens = Ok m ->
  GoProPy.Message_init tokens = Ok m' ->
  plain (command m) = true
  /\ exists u,
       _build_url m gopro = Ok u
       /\ GoProPy._build_url m'
            (GoProPy.GoPro_init (ip_address gopro) mac period) = Ok u.
Proof.
  intros H H'.
  destruct (from_text_shape tokens m H)
    as [d [rest [Hd [Ht [Hlen [Hargs Hrel]]]]]].
  destruct (variant_init_shape tokens m' H')
    as [d' [rest' [Hd' [Ht' [Hlen' Hrel']]]]].
  rewrite Ht in Ht'. injection Ht' as Hv Hrest. subst rest'.
  destruct (catalogs_agree _ _ d d' Hv Hd Hd') as [Htpl [Har Hmap]].
  split; [exact (shared_is_plain _ _ d' Hv Hd')|].
  assert (Hsame : GoProPy.args m' = args m).
  { rewrite <- Hmap in Hrel'. destruct (mapping d) as [mp|].
    - apply (Forall2_functional _ rest
               (fun a b b' (H1 : dict_get mp a = Some b)
                    (H2 : dict_get mp a = Some b') =>
                  match eq_trans (eq_sym H1) H2 with eq_refl => eq_refl end)
               _ _ Hrel' Hrel).
    - congruence. }
  destruct m as [c a], m' as [c' a']. cbn [command args GoProPy.command
    GoProPy.args] in *. subst a'.
  destruct (catalog_templates c d Hd) as [Hjoin [Hall [Hpieces _]]].
  pose proof (build_url_fill gopro c d _ a Hd Hjoin Hall ltac:(lia)) as Hurl.
  exists ("http://" ++ ip_address gopro ++ "/gp/gpControl"
            ++ fill (split_fields (template d)) a)%string.
  split; [exact Hurl|].
  unfold _build_url in Hurl. cbn [command args] in Hurl.
  rewrite Hd in Hurl. cbn [rbind] in Hurl. rewrite Htpl in Hurl.
  cbn [format] in Hurl.
  change (Ascii.eqb "/" "{") with false in Hurl.
  change (Ascii.eqb "/" "}") with false in Hurl. cbv iota in Hurl.
  unfold GoProPy._build_url. cbn [GoProPy.command GoProPy.args]. rewrite Hd'.
  cbn [rbind GoProPy.GoPro_init GoProPy.url].
  destruct (format (template d') a) as [path|e]; cbn [rbind] in *;
    [|discriminate].
  rewrite variant_url, Htpl. exact Hurl.
Qed.

End VariantRuns.

(** X17.  In GoPro.py the two error messages of [Message.__init__] are
    built with [get_identifier], which reads the attribute [kind] that no
    message has: a wrong number of arguments, or an argument that is not a
    key of the mapping, raises [AttributeError] instead of [ValueError], and
    the command loop, which catches [ValueError] only, ends. *)
Theorem variant_init_errors :
  forall (c : GoProPy.CommandEnum) (d : definition) (rest : list string),
    GoProPy.definitions_getitem c = Ok d ->
    (length rest <> arity d
     \/ exists mp bad,
          mapping d = Some mp /\ rest = [bad] /\ dict_mem mp bad = false) ->
    GoProPy.Message_init (GoProPy.value c :: rest) = Raise no_kind
    /\ isinstance_ValueError no_kind = false
    /\ (forall gopro line lines w s,
          split (strip line) " " = GoProPy.value c :: rest ->
          GoProPy.command_loop gopro (line :: lines) w s = (Raise no_kind, s)).
Proof.
  intros c d rest Hd Hbad.
  assert (H : GoProPy.Message_init (GoProPy.value c :: rest) = Raise no_kind).
  { rewrite (variant_init_known c d rest Hd).
    destruct (Nat.eqb_spec (length rest) (arity d)) as [E|E]; [|reflexivity].
    destruct Hbad as [Hlen|[mp [bad [Hmp [-> Hmem]]]]]; [contradiction|].
    cbn [negb]. rewrite Hmp. cbn [length] in E. rewrite <- E.
    cbn [firstn enumerate enumerate_from GoProPy.map_args].
    rewrite Hmem. reflexivity. }
  split; [exact H|]. split; [reflexivity|].
  intros gopro line lines w s Hsplit.
  apply variant_loop_raises; [rewrite Hsplit; exact H | reflexivity].
Qed.

Lemma variant_init_errors_example :
  GoProPy.Message_init ["video_resolution"; "8k"] = Raise no_kind
  /\ isinstance_ValueError no_kind = false
  /\ (forall gopro line lines w s,
        split (strip line) " " = ["video_resolution"; "8k"] ->
        GoProPy.command_loop gopro (line :: lines) w s = (Raise no_kind, s)).
Proof.
  apply (variant_init_errors GoProPy.VIDEO_RESOLUTION
           {| arity := 1; template := "setting/2/{}";
              mapping := Some [("4k", "1"); ("1440p", "7"); ("1080p", "9");
                               ("720p", "12")] |} ["8k"]).
  - reflexivity.
  - right.
    exists [("4k", "1"); ("1440p", "7"); ("1080p", "9"); ("720p", "12")], "8k".
    repeat split.
Defined.

(** X18.  The enumeration of GoPro.py has the member [WAKE], but its
    catalog has no entry for it: every other member has an entry, and a line
    that starts with wake fails there as an unknown command, which the loop
    logs and skips, while gpc.py parses the same line to the wake message. *)
Theorem variant_wake_unknown :
  forall (rest : list string),
    GoProPy.Message_init (GoProPy.value GoProPy.WAKE :: rest)
    = Raise (unknown_command "wake")
    /\ (forall c,
          (exists d, GoProPy.definitions_getitem c = Ok d) <-> c <> GoProPy.WAKE)
    /\ (forall gopro line w s,
          split (strip line) " " = GoProPy.value GoProPy.WAKE :: rest ->
          GoProPy.process_line gopro line w s
          = (Ok tt,
             debugged (skip_message (strip line) (unknown_command "wake")) s))
    /\ from_text [value WAKE] = Ok {| command := WAKE; args := [] |}.
Proof.
  intros rest.
  assert (H : GoProPy.Message_init (GoProPy.value GoProPy.WAKE :: rest)
              = Raise (unknown_command "wake")) by reflexivity.
  split; [exact H|]. split.
  { intros c. split.
    - intros [d Hd] ->. vm_compute in Hd. discriminate.
    - intros Hc. destruct c; try (eexists; reflexivity). contradiction. }
  split; [|reflexivity].
  intros gopro line w s Hsplit.
  unfold GoProPy.process_line. rewrite Hsplit, H.
  cbn [unknown_command isinstance_ValueError]. apply debug_print_run.
Qed.

(** X19.  The two scripts agree on the lines that both parse: for a token
    list that [from_text] of gpc.py and [Message.__init__] of GoPro.py both
    accept, and sessions with the same IP address, the two messages render
    to the same URL, and dispatching them adds the same events to the trace:
    the same HTTP GET (gpc.py returns the response, GoPro.py returns
    nothing). *)
Theorem variants_agree :
  forall (tokens : list string) (m : Message) (m' : GoProPy.Message)
         (gopro : GoPro) (mac : string) (period : Z) (w : World) (s : state),
    from_text tokens = Ok m ->
    GoProPy.Message_init tokens = Ok m' ->
    (exists u,
       _build_url m gopro = Ok u
       /\ GoProPy._build_url m'
            (GoProPy.GoPro_init (ip_address gopro) mac period) = Ok u)
    /\ snd (send_to m gopro w s)
       = snd (GoProPy.send_to m'
                (GoProPy.GoPro_init (ip_address gopro) mac period) w s).
Proof.
  intros tokens m m' gopro mac period w s H H'.
  destruct (variant_same_url tokens m m' gopro mac period H H')
    as [Hplain [u [Hu Hu']]].
  split; [exists u; split; assumption|].
  rewrite variant_send_to_run, Hu'.
  destruct m as [c a]. cbn [command] in Hplain.
  rewrite (send_to_plain_run gopro w c a s Hplain), Hu.
  reflexivity.
Qed.

Lemma variants_agree_example :
  (exists u,
     _build_url {| command := VIDEO_RESOLUTION; args := ["9"] |} example_session
     = Ok u
     /\ GoProPy._build_url
          {| GoProPy.command := GoProPy.VIDEO_RESOLUTION;
             GoProPy.args := ["9"] |}
          (GoProPy.GoPro_init "10.5.5.9" "AABBCCDDEEFF" 2500) = Ok u)
  /\ snd (send_to {| command := VIDEO_RESOLUTION; args := ["9"] |}
            example_session unreachable_network (initial true))
     = snd (GoProPy.send_to
              {| GoProPy.command := GoProPy.VIDEO_RESOLUTION;
                 GoProPy.args := ["9"] |}
              (GoProPy.GoPro_init "10.5.5.9" "AABBCCDDEEFF" 2500)
              unreachable_network (initial true)).
Proof.
  apply (variants_agree ["video_resolution"; "1080p"]
           {| command := VIDEO_RESOLUTION; args := ["9"] |}
           {| GoProPy.command := GoProPy.VIDEO_RESOLUTION;
              GoProPy.args := ["9"] |}
           example_session "AABBCCDDEEFF" 2500 unreachable_network
           (initial true)); reflexivity.
Defined.
